(** * connector-sdk: topic routing table and invoker

    A shallow embedding of the [types] package of connector-sdk
    (topic map, invoker options, invoker) and the properties of its
    routing and invocation behaviour.

    Go values are embedded as follows.
    - [map[string][]string] (the topic table and [http.Header]) is a
      [gmap string (list string)]; the order in which a [range] loop
      visits the entries is chosen by the Go runtime and is a
      parameter here (class [GoRuntime]).
    - a pointer that the code tests against [nil] or dereferences is an
      [option]; dereferencing [None] is a panic ([Panic]).
    - the [Responses] channel is the trace of the values sent on it, the
      HTTP client is a function from the requests seen so far and the
      current request to the outcome of the round trip, and both live in
      an explicit [World] threaded through the invoker. *)

From stdpp Require Import gmap strings list fin_maps.
From Stdlib Require Import ZArith Ascii.

Open Scope string_scope.
Open Scope list_scope.
Open Scope Z_scope.

(** ** Go runtime: map iteration and errors *)

(** Go [error] values: a message, possibly wrapping a cause ([%w]). *)
Inductive error :=
  | errorString (msg : string)
  | wrapError (msg : string) (cause : error).

(** [err.Error()] *)
Definition Error_msg (e : error) : string :=
  match e with
  | errorString m => m
  | wrapError m _ => m
  end.

(** [fmt.Errorf(prefix ++ "%w", err)] *)
Definition Errorf_w (prefix : string) (err : error) : error :=
  wrapError (prefix +:+ Error_msg err) err.

(** [errors.Is(e, target)] along the [Unwrap] chain *)
Fixpoint wraps (e target : error) : Prop :=
  e = target \/
  match e with
  | errorString _ => False
  | wrapError _ cause => wraps cause target
  end.

(** The entries of a Go map as one [range] loop visits them: every entry
    once, in an order the language leaves unspecified. [new_request_error]
    stands for the URL validation of [http.NewRequest]. *)
Class GoRuntime := {
  range_entries : gmap string (list string) -> list (string * list string);
  range_entries_perm : forall m, range_entries m ≡ₚ map_to_list m;
  new_request_error : string -> option error
}.

(** One admissible runtime: entries in the order of [map_to_list], every
    URL accepted. *)
#[export] Instance plain_runtime : GoRuntime := {|
  range_entries := map_to_list;
  range_entries_perm := fun m => reflexivity (map_to_list m);
  new_request_error := fun _ => None
|}.

(** ** topic_map.go *)

Definition MatchTopicFunc := string -> string -> bool.

Definition defaultMatchTopic (topicReceived topicFunction : string) : bool :=
  bool_decide (topicReceived = topicFunction).

(** The field [lookup] of the source is [lookup_table] here (stdpp has a
    [lookup] of its own). It points to the table and is held as the table
    it points to ([NewTopicMap], and [Sync] with a mapping, leave it
    non-nil). The lock is left out: the operations are taken one at a
    time. *)
Record TopicMap := mkTopicMap {
  lookup_table : gmap string (list string);
  matchFunc : option MatchTopicFunc
}.

Definition NewTopicMap (mf : option MatchTopicFunc) : TopicMap :=
  let lookup := ∅ in
  let mf' := match mf with
             | None => defaultMatchTopic
             | Some f => f
             end in
  {| lookup_table := lookup; matchFunc := Some mf' |}.

(** The predicate [Match] ends up calling. *)
Definition active_match (t : TopicMap) : MatchTopicFunc :=
  match matchFunc t with
  | None => defaultMatchTopic
  | Some f => f
  end.

Section topic_map.
Context `{GoRuntime}.

(** [for key, functions := range *t.lookup { if matchFunc(topicName, key)
    { values = append(values, functions...) } }] *)
Definition Match (t : TopicMap) (topicName : string) : list string :=
  let mf := match matchFunc t with
            | None => defaultMatchTopic
            | Some f => f
            end in
  fold_left
    (fun (values : list string) (kf : string * list string) =>
       if mf topicName (fst kf) then values ++ snd kf else values)
    (range_entries (lookup_table t)) [].

Definition Sync (t : TopicMap) (updated : gmap string (list string)) : TopicMap :=
  {| lookup_table := updated; matchFunc := matchFunc t |}.

Definition Topics (t : TopicMap) : list string :=
  fold_left (fun (topics : list string) (kf : string * list string) =>
               topics ++ [fst kf])
    (range_entries (lookup_table t)) [].
End topic_map.

(** ** net/http headers

    [http.Header] is a [map[string][]string]; its methods address the
    canonical form of the key they are given. *)

Abbreviation http_Header := (gmap string (list string)).

Definition is_lower (c : ascii) : bool :=
  ((97 <=? N_of_ascii c) && (N_of_ascii c <=? 122))%N.

Definition is_upper (c : ascii) : bool :=
  ((65 <=? N_of_ascii c) && (N_of_ascii c <=? 90))%N.

Definition is_digit (c : ascii) : bool :=
  ((48 <=? N_of_ascii c) && (N_of_ascii c <=? 57))%N.

(** [validHeaderFieldByte]: the token characters of RFC 7230. *)
Definition validHeaderFieldByte (c : ascii) : bool :=
  is_lower c || is_upper c || is_digit c ||
  bool_decide (c ∈ String.list_ascii_of_string "!#$%&'*+-.^_`|~").

Fixpoint all_valid (s : string) : bool :=
  match s with
  | EmptyString => true
  | String c s' => validHeaderFieldByte c && all_valid s'
  end.

(** First letter and every letter after a dash in upper case, the others
    in lower case. *)
Fixpoint canonical_case (upper : bool) (s : string) : string :=
  match s with
  | EmptyString => EmptyString
  | String c s' =>
      let c' := if upper && is_lower c then ascii_of_N (N_of_ascii c - 32)
                else if negb upper && is_upper c then ascii_of_N (N_of_ascii c + 32)
                else c in
      String c' (canonical_case (bool_decide (c' = "-"%char)) s')
  end.

(** [textproto.CanonicalMIMEHeaderKey]: a key holding a byte that is not
    a token character is returned unchanged. *)
Definition CanonicalHeaderKey (s : string) : string :=
  if all_valid s then canonical_case true s else s.

(** [h[key]], the nil slice when the key is absent *)
Definition header_values (h : http_Header) (key : string) : list string :=
  default [] (h !! key).

Definition Header_Set (h : http_Header) (key value : string) : http_Header :=
  <[CanonicalHeaderKey key := [value]]> h.

Definition Header_Add (h : http_Header) (key value : string) : http_Header :=
  <[CanonicalHeaderKey key :=
      header_values h (CanonicalHeaderKey key) ++ [value]]> h.

Definition Header_Get (h : http_Header) (key : string) : string :=
  match header_values h (CanonicalHeaderKey key) with
  | v :: _ => v
  | [] => ""
  end.

(** ** options.go *)

Module InvokerOptions.
Record t := mk {
  sendTopic : bool;
  asyncCallbackURL : string;
  userAgent : string
}.
Definition zero : t :=
  {| sendTopic := false; asyncCallbackURL := ""; userAgent := "" |}.
End InvokerOptions.

Definition InvokerOptionFunc := InvokerOptions.t -> InvokerOptions.t.

Definition WithInvokerSendTopic (sendTopic : bool) : InvokerOptionFunc :=
  fun opts =>
    {| InvokerOptions.sendTopic := sendTopic;
       InvokerOptions.asyncCallbackURL := InvokerOptions.asyncCallbackURL opts;
       InvokerOptions.userAgent := InvokerOptions.userAgent opts |}.

Definition WithInvokerAsyncCallbackURL (callbackURL : string) : InvokerOptionFunc :=
  fun opts =>
    {| InvokerOptions.sendTopic := InvokerOptions.sendTopic opts;
       InvokerOptions.asyncCallbackURL := callbackURL;
       InvokerOptions.userAgent := InvokerOptions.userAgent opts |}.

Definition WithInvokerUserAgent (userAgent : string) : InvokerOptionFunc :=
  fun opts =>
    {| InvokerOptions.sendTopic := InvokerOptions.sendTopic opts;
       InvokerOptions.asyncCallbackURL := InvokerOptions.asyncCallbackURL opts;
       InvokerOptions.userAgent := userAgent |}.

Module InvokeOptions.
Record t := mk {
  topic : string;
  asyncCallbackURL : string;
  contentType : string
}.
Definition zero : t :=
  {| topic := ""; asyncCallbackURL := ""; contentType := "" |}.
End InvokeOptions.

Definition InvokeOptionFunc := InvokeOptions.t -> InvokeOptions.t.

Definition WithInvokeTopic (topic : string) : InvokeOptionFunc :=
  fun opts =>
    {| InvokeOptions.topic := topic;
       InvokeOptions.asyncCallbackURL := InvokeOptions.asyncCallbackURL opts;
       InvokeOptions.contentType := InvokeOptions.contentType opts |}.

Definition WithInvokeAsyncCallbackURL (callbackURL : string) : InvokeOptionFunc :=
  fun opts =>
    {| InvokeOptions.topic := InvokeOptions.topic opts;
       InvokeOptions.asyncCallbackURL := callbackURL;
       InvokeOptions.contentType := InvokeOptions.contentType opts |}.

Definition WithInvokeContentType (contentType : string) : InvokeOptionFunc :=
  fun opts =>
    {| InvokeOptions.topic := InvokeOptions.topic opts;
       InvokeOptions.asyncCallbackURL := InvokeOptions.asyncCallbackURL opts;
       InvokeOptions.contentType := contentType |}.

(** [o := &Options{}; for _, optFn := range opts { optFn(o) }] *)
Definition apply_opts {O : Type} (zero : O) (opts : list (O -> O)) : O :=
  fold_left (fun o optFn => optFn o) opts zero.

(** ** invoker.go: data *)

Definition Context := nat.
Definition bytes := list Byte.byte.

Module Request.
(** The part of [*http.Request] the invoker fills in. *)
Record t := mk {
  Method : string;
  URL : string;
  Header : http_Header;
  Body : bytes;
  Ctx : Context
}.
End Request.

(** What [io.ReadAll(res.Body)] returns. *)
Inductive ReadAll_result :=
  | ReadOk (bytesOut : bytes)
  | ReadErr (err : error).

Module Response.
(** [*http.Response]; [Body] is [None] for a nil body. *)
Record t := mk {
  StatusCode : Z;
  Header : http_Header;
  Body : option ReadAll_result
}.
End Response.

(** What [c.Do(req)] returns. *)
Inductive Do_result :=
  | DoErr (err : error)
  | DoOk (res : Response.t).

(** The HTTP client together with the network behind it: given the
    requests issued so far and the current one, the outcome of the round
    trip and the time it took. *)
Definition http_Client := list Request.t -> Request.t -> Do_result * Z.

Module InvokerResponse.
Record t := mk {
  Context : Context;
  Body : option bytes;
  Header : option http_Header;
  Status : Z;
  Error : option error;
  Topic : string;
  Function : string;
  Duration : Z
}.
End InvokerResponse.

Module Invoker.
(** The [Responses] channel is held in the [World]. *)
Record t := mk {
  PrintResponse : bool;
  PrintRequest : bool;
  Client : http_Client;
  GatewayURL : string;
  ContentType : string;
  opts : InvokerOptions.t
}.
End Invoker.

Definition NewInvoker (gatewayURL : string) (client : http_Client)
    (contentType : string) (printResponse printRequest : bool)
    (opts : list InvokerOptionFunc) : Invoker.t :=
  let o := apply_opts InvokerOptions.zero opts in
  {| Invoker.PrintResponse := printResponse;
     Invoker.PrintRequest := printRequest;
     Invoker.Client := client;
     Invoker.GatewayURL := gatewayURL;
     Invoker.ContentType := contentType;
     Invoker.opts := o |}.

Definition StatusServiceUnavailable : Z := 503.
Definition MethodPost : string := "POST".

(** ** Effects: the world, panics, and the monad threading them *)

Record World := mkWorld {
  Responses : list InvokerResponse.t;  (* values sent on [i.Responses] *)
  round_trips : list Request.t;        (* requests handed to [Client.Do] *)
  now : Z                              (* the clock of [time.Now] *)
}.

Inductive Result (A : Type) :=
  | Ok (a : A)
  | Panic.
Arguments Ok {A} a.
Arguments Panic {A}.

Definition M (A : Type) : Type := World -> Result (A * World).

Definition ret {A} (a : A) : M A := fun w => Ok (a, w).

Definition bind {A B} (c : M A) (k : A -> M B) : M B :=
  fun w =>
    match c w with
    | Ok (a, w') => k a w'
    | Panic => Panic
    end.

Notation "'let*' x ':=' c 'in' k" := (bind c (fun x => k))
  (at level 10, x pattern, c at level 100, k at level 200).
Notation "c ';;' k" := (bind c (fun _ => k))
  (at level 100, k at level 200, right associativity).

Definition panic {A} : M A := fun _ => Panic.

(** [p == nil] *)
Definition is_nil {A} (p : option A) : bool :=
  match p with
  | Some _ => false
  | None => true
  end.

(** [*p] *)
Definition deref {A} (p : option A) : M A :=
  match p with
  | Some a => ret a
  | None => panic
  end.

(** [i.Responses <- r] *)
Definition send (r : InvokerResponse.t) : M unit :=
  fun w => Ok (tt, {| Responses := Responses w ++ [r];
                      round_trips := round_trips w;
                      now := now w |}).

(** [c.Do(req)] *)
Definition Client_Do (c : http_Client) (req : Request.t) : M Do_result :=
  fun w =>
    let '(out, took) := c (round_trips w) req in
    Ok (out, {| Responses := Responses w;
                round_trips := round_trips w ++ [req];
                now := now w + took |}).

(** [time.Now()] *)
Definition time_Now : M Z := fun w => Ok (now w, w).

(** [time.Since(start)] *)
Definition time_Since (start : Z) : M Z := fun w => Ok (now w - start, w).

Fixpoint for_each {A} (l : list A) (body : A -> M unit) : M unit :=
  match l with
  | [] => ret tt
  | x :: l' => body x ;; for_each l' body
  end.

(** ** invoker.go: operations *)

Section invoker.
Context `{GoRuntime}.

(** [for k, values := range headers { for _, value := range values
    { req.Header.Add(k, value) } }] over the entries as visited *)
Definition add_all (reqHeader : http_Header)
    (entries : list (string * list string)) : http_Header :=
  fold_left
    (fun (h : http_Header) (kv : string * list string) =>
       fold_left (fun (h' : http_Header) (value : string) =>
                    Header_Add h' (fst kv) value)
                 (snd kv) h)
    entries reqHeader.

(** [Invoker.invoke]: the request is built on a fresh header set,
    [X-Connector] is set when the request does not have it, and the
    headers handed in are added to it. *)
Definition invoke (i : Invoker.t) (ctx : Context) (c : http_Client)
    (gwURL : string) (reader : bytes) (headers : http_Header)
    : M (option bytes * Z * option http_Header * option error) :=
  match new_request_error gwURL with
  | Some err => ret (None, StatusServiceUnavailable, None, Some err)
  | None =>
      let reqHeader : http_Header := ∅ in
      let reqHeader :=
        if bool_decide (Header_Get reqHeader "X-Connector" = "")
        then Header_Set reqHeader "X-Connector" "connector-sdk"
        else reqHeader in
      let reqHeader := add_all reqHeader (range_entries headers) in
      let req := {| Request.Method := MethodPost;
                    Request.URL := gwURL;
                    Request.Header := reqHeader;
                    Request.Body := reader;
                    Request.Ctx := ctx |} in
      let* out := Client_Do c req in
      match out with
      | DoErr err =>
          ret (None, StatusServiceUnavailable, None,
               Some (Errorf_w ("unable to reach endpoint " +:+ gwURL +:+ ", error: ") err))
      | DoOk res =>
          match Response.Body res with
          | Some (ReadErr err) =>
              ret (None, StatusServiceUnavailable, None,
                   Some (Errorf_w "unable to read body from response " err))
          | Some (ReadOk bytesOut) =>
              ret (Some bytesOut, Response.StatusCode res,
                   Some (Response.Header res), None)
          | None =>
              ret (None, Response.StatusCode res,
                   Some (Response.Header res), None)
          end
      end
  end.

(** The header set [Invoke] hands to [invoke] (the part of [Invoke] from
    [if headers == nil] to the [Content-Type] setting): the caller's
    headers, an empty set for nil, with the invoker's and the call's
    settings written over them. The source writes into the caller's map;
    the map is passed on here and not handed back to the caller. *)
Definition build_headers (i : Invoker.t) (o : InvokeOptions.t)
    (headers : option http_Header) : http_Header :=
  let topic := InvokeOptions.topic o in
  let headers : http_Header :=
    match headers with
    | None => ∅
    | Some h => h
    end in
  let headers :=
    if bool_decide (InvokerOptions.userAgent (Invoker.opts i) ≠ "")
    then Header_Set headers "User-Agent" (InvokerOptions.userAgent (Invoker.opts i))
    else headers in
  let headers :=
    if InvokerOptions.sendTopic (Invoker.opts i)
    then Header_Set headers "X-Topic" topic
    else headers in
  let headers :=
    if bool_decide (InvokeOptions.asyncCallbackURL o ≠ "")
    then Header_Set headers "X-Callback-Url" (InvokeOptions.asyncCallbackURL o)
    else if bool_decide (InvokerOptions.asyncCallbackURL (Invoker.opts i) ≠ "")
    then Header_Set headers "X-Callback-Url"
           (InvokerOptions.asyncCallbackURL (Invoker.opts i))
    else headers in
  let headers :=
    if bool_decide (InvokeOptions.contentType o ≠ "")
    then Header_Set headers "Content-Type" (InvokeOptions.contentType o)
    else if bool_decide (Invoker.ContentType i ≠ "")
    then Header_Set headers "Content-Type" (Invoker.ContentType i)
    else headers in
  headers.

(** [Invoker.Invoke]. A nil [message] is read as the empty body, but
    the request log dereferences it. *)
Definition Invoke (i : Invoker.t) (ctx : Context) (functionName : string)
    (message : option bytes) (headers : option http_Header)
    (opts : list InvokeOptionFunc) : M InvokerResponse.t :=
  let o := apply_opts InvokeOptions.zero opts in
  let gwURL := Invoker.GatewayURL i +:+ "/" +:+ functionName in
  let reader : bytes :=
    match message with
    | None => []
    | Some m => m
    end in
  let topic := InvokeOptions.topic o in
  (if Invoker.PrintRequest i
   then (let* _ := deref message in ret tt)
   else ret tt) ;;
  let headers := build_headers i o headers in
  let* start := time_Now in
  let* res := invoke i ctx (Invoker.Client i) gwURL reader headers in
  let '(body, statusCode, header, err) := res in
  match err with
  | Some err =>
      let* elapsed := time_Since start in
      let invokerResponse :=
        {| InvokerResponse.Context := ctx;
           InvokerResponse.Body := None;
           InvokerResponse.Header := None;
           InvokerResponse.Status := statusCode;
           InvokerResponse.Error :=
             Some (Errorf_w ("unable to invoke " +:+ functionName +:+ ", error: ") err);
           InvokerResponse.Topic := "";
           InvokerResponse.Function := functionName;
           InvokerResponse.Duration := elapsed |} in
      send invokerResponse ;;
      ret invokerResponse
  | None =>
      let* elapsed := time_Since start in
      let invokerResponse :=
        {| InvokerResponse.Context := ctx;
           InvokerResponse.Body := body;
           InvokerResponse.Header := header;
           InvokerResponse.Status := statusCode;
           InvokerResponse.Error := None;
           InvokerResponse.Topic := topic;
           InvokerResponse.Function := functionName;
           InvokerResponse.Duration := elapsed |} in
      send invokerResponse ;;
      ret invokerResponse
  end.

(** The response of the guard of [InvokeWithTopic]. *)
Definition no_message_response (ctx : Context) : InvokerResponse.t :=
  {| InvokerResponse.Context := ctx;
     InvokerResponse.Body := None;
     InvokerResponse.Header := None;
     InvokerResponse.Status := 0;
     InvokerResponse.Error := Some (errorString "no message to send");
     InvokerResponse.Topic := "";
     InvokerResponse.Function := "";
     InvokerResponse.Duration := 0 |}.

(** [Invoker.InvokeWithTopic]. [len( *message)] is evaluated before
    [topicMap == nil]. Every call of [Invoke] gets the same [headers]
    map; what [Invoke] writes into it depends on the invoker and the
    options only, so handing the map over by value loses nothing. *)
Definition InvokeWithTopic (i : Invoker.t) (ctx : Context)
    (topicMap : option TopicMap) (topic : string) (message : option bytes)
    (headers : option http_Header) (opts : list InvokeOptionFunc) : M unit :=
  let* m := deref message in
  if bool_decide (length m = 0%nat) || is_nil topicMap
  then send (no_message_response ctx)
  else
    let opts := opts ++ [WithInvokeTopic topic] in
    let* t := deref topicMap in
    let matchedFunctions := Match t topic in
    for_each matchedFunctions
      (fun matchedFunction =>
         Invoke i ctx matchedFunction message headers opts ;; ret tt).
End invoker.

(** ** Vocabulary of the statements *)

(** Every key of the header set is in canonical form, as the methods of
    [http.Header] leave it. *)
Definition canonical_keys (h : http_Header) : Prop :=
  map_Forall (fun k (_ : list string) => CanonicalHeaderKey k = k) h.

(** The header set a nil [headers] argument stands for. *)
Definition caller_headers (headers : option http_Header) : http_Header :=
  match headers with
  | None => ∅
  | Some h => h
  end.

(** The call does not dereference a nil payload in its request log. *)
Definition nil_safe (i : Invoker.t) (message : option bytes) : Prop :=
  Invoker.PrintRequest i = true -> message <> None.

#[export] Instance canonical_keys_dec (h : http_Header) :
  Decision (canonical_keys h).
Proof. unfold canonical_keys. apply _. Defined.

#[export] Instance nil_safe_dec (i : Invoker.t) (message : option bytes) :
  Decision (nil_safe i message).
Proof.
  unfold nil_safe.
  destruct (Invoker.PrintRequest i); [destruct message as [m|]|].
  - left. intros _. discriminate.
  - right. intros Hsafe. by apply Hsafe.
  - left. intros Hprint. discriminate.
Defined.

(** The URL [Invoke] posts to. *)
Definition gateway_url (i : Invoker.t) (functionName : string) : string :=
  Invoker.GatewayURL i +:+ "/" +:+ functionName.

(** The response reports the gateway as unavailable because of [cause]. *)
Definition unavailable (r : InvokerResponse.t) (cause : error) : Prop :=
  InvokerResponse.Status r = StatusServiceUnavailable /\
  InvokerResponse.Body r = None /\
  exists e, InvokerResponse.Error r = Some e /\ wraps e cause.

Section outbound.
Context `{GoRuntime}.

(** The request [Invoke] hands to the client when it gets that far. *)
Definition outbound_request (i : Invoker.t) (ctx : Context)
    (functionName : string) (message : option bytes)
    (headers : option http_Header) (opts : list InvokeOptionFunc) : Request.t :=
  {| Request.Method := MethodPost;
     Request.URL := gateway_url i functionName;
     Request.Header :=
       add_all (Header_Set ∅ "X-Connector" "connector-sdk")
         (range_entries
            (build_headers i (apply_opts InvokeOptions.zero opts) headers));
     Request.Body := match message with
                     | None => []
                     | Some m => m
                     end;
     Request.Ctx := ctx |}.
End outbound.

(** ** Sample collaborators

    Clients and a world for the concrete runs below, after the servers of
    the package's tests. *)

(** A reachable server answering every request with [status] and [body]. *)
Definition responder (status : Z) (body : bytes) : http_Client :=
  fun _ _ =>
    (DoOk {| Response.StatusCode := status;
             Response.Header := ∅;
             Response.Body := Some (ReadOk body) |}, 1).

(** A host that cannot be reached. *)
Definition dial_error : error := errorString "dial tcp: no such host".

Definition unreachable : http_Client := fun _ _ => (DoErr dial_error, 1).

(** Nothing sent, nothing requested yet. *)
Definition idle : World := {| Responses := []; round_trips := []; now := 0 |}.

(** The payload ["hi"]. *)
Definition hi : bytes := [Byte.x68; Byte.x69].

(** The invoker of the package's tests, on a given client. *)
Definition test_invoker (client : http_Client) (printRequest : bool)
    (opts : list InvokerOptionFunc) : Invoker.t :=
  NewInvoker "http://127.0.0.1/function" client "application/json"
    false printRequest opts.

(** An invoker with no default content type and no default callback URL. *)
Definition bare_invoker (client : http_Client)
    (opts : list InvokerOptionFunc) : Invoker.t :=
  NewInvoker "http://127.0.0.1/function" client "" false false opts.

(** The requests a run handed to the client, none if it panicked. *)
Definition issued {A} (run : Result (A * World)) : list Request.t :=
  match run with
  | Ok (_, w) => round_trips w
  | Panic => []
  end.

(** The responses a run sent on the channel, none if it panicked. *)
Definition published {A} (run : Result (A * World)) : list InvokerResponse.t :=
  match run with
  | Ok (_, w) => Responses w
  | Panic => []
  end.

(** The value a run returned. *)
Definition returned {A} (run : Result (A * World)) : option A :=
  match run with
  | Ok (a, _) => Some a
  | Panic => None
  end.

(** ** strings *)

(** [strings.TrimSpace], whose table of Unicode white space is not part
    of the package. *)
Class GoStrings := {
  TrimSpace : string -> string
}.

(** [strings.Split(s, sep)] for a non-empty [sep], the only way the
    package calls it: [s] is cut at every occurrence of [sep], found
    from the left and not overlapping. [skip] counts the bytes of an
    occurrence still to pass, [cur] is the piece read so far. *)
Fixpoint split_from (sep : string) (skip : nat) (cur : string) (s : string)
    : list string :=
  match s with
  | EmptyString => [cur]
  | String c s' =>
      match skip with
      | S k => split_from sep k cur s'
      | O =>
          if String.prefix sep s
          then cur :: split_from sep (String.length sep - 1) "" s'
          else split_from sep 0 (cur +:+ String c "") s'
      end
  end.

Definition strings_Split (s sep : string) : list string :=
  split_from sep 0 "" s.

(** [strings.Count(s, substr)] for a non-empty [substr]. *)
Fixpoint count_from (sep : string) (skip : nat) (s : string) : nat :=
  match s with
  | EmptyString => 0%nat
  | String c s' =>
      match skip with
      | S k => count_from sep k s'
      | O =>
          if String.prefix sep s
          then S (count_from sep (String.length sep - 1) s')
          else count_from sep 0 s'
      end
  end.

Definition strings_Count (s substr : string) : nat := count_from substr 0 s.

(** ** function_lookup_builder.go *)

Module FunctionStatus.
(** The fields of [types.FunctionStatus] the builder reads;
    [Annotations] is a pointer to a map. *)
Record t := mk {
  Name : string;
  Namespace : string;
  Annotations : option (gmap string string)
}.
End FunctionStatus.

(** The calls of the gateway client the builder makes: a listing or an
    error, which depends on the namespace asked for only. *)
Record sdk_Client := mk_sdk_Client {
  GetNamespaces : error + list string;
  GetFunctions : string -> error + list FunctionStatus.t
}.

Module FunctionLookupBuilder.
Record t := mk {
  TopicDelimiter : string;
  Namespace : string;
  sdk : sdk_Client
}.
End FunctionLookupBuilder.

Section function_lookup_builder.
Context `{GoStrings}.

Definition appendServiceMap (key function namespace : string)
    (sm : gmap string (list string)) : gmap string (list string) :=
  let key := TrimSpace key in
  if (0 <? String.length key)%nat
  then
    let sm := match sm !! key with
              | None => <[key := []]> sm
              | Some _ => sm
              end in
    let sep := if (0 <? String.length namespace)%nat then "." else "" in
    let functionPath := function +:+ sep +:+ namespace in
    <[key := default [] (sm !! key) ++ [functionPath]]> sm
  else sm.

Definition buildServiceMap (functions : list FunctionStatus.t)
    (topicDelimiter namespace : string) (serviceMap : gmap string (list string))
    : gmap string (list string) :=
  fold_left
    (fun (serviceMap : gmap string (list string)) (function : FunctionStatus.t) =>
       match FunctionStatus.Annotations function with
       | Some annotations =>
           match annotations !! "topic" with
           | Some topicNames =>
               if (0 <? String.length topicDelimiter)%nat &&
                  (0 <? strings_Count topicNames topicDelimiter)%nat
               then
                 fold_left
                   (fun (serviceMap : gmap string (list string)) (topic : string) =>
                      appendServiceMap topic (FunctionStatus.Name function)
                        namespace serviceMap)
                   (strings_Split topicNames topicDelimiter) serviceMap
               else
                 appendServiceMap topicNames (FunctionStatus.Name function)
                   namespace serviceMap
           | None => serviceMap
           end
       | None => serviceMap
       end)
    functions serviceMap.

(** The loop of [Build] over the namespaces. *)
Fixpoint build_namespaces (s : FunctionLookupBuilder.t) (namespaces : list string)
    (serviceMap : gmap string (list string))
    : gmap string (list string) * option error :=
  match namespaces with
  | [] => (serviceMap, None)
  | namespace :: rest =>
      match GetFunctions (FunctionLookupBuilder.sdk s) namespace with
      | inl err =>
          (∅, Some (Errorf_w ("unable to get functions in: " +:+ namespace
                               +:+ ", error: ") err))
      | inr functions =>
          build_namespaces s rest
            (buildServiceMap functions (FunctionLookupBuilder.TopicDelimiter s)
               namespace serviceMap)
      end
  end.

Definition Build (s : FunctionLookupBuilder.t)
    : gmap string (list string) * option error :=
  let namespaces :=
    if bool_decide (FunctionLookupBuilder.Namespace s = "")
    then GetNamespaces (FunctionLookupBuilder.sdk s)
    else inr [FunctionLookupBuilder.Namespace s] in
  match namespaces with
  | inl err => (∅, Some err)
  | inr namespaces =>
      let serviceMap : gmap string (list string) := ∅ in
      let namespaces :=
        if bool_decide (length namespaces = 0%nat) then [""] else namespaces in
      build_namespaces s namespaces serviceMap
  end.
End function_lookup_builder.

(** ** controller.go *)

Module ControllerConfig.
Record t := mk {
  UpstreamTimeout : Z;
  GatewayURL : string;
  PrintResponse : bool;
  PrintResponseBody : bool;
  PrintRequestBody : bool;
  RebuildInterval : Z;
  TopicAnnotationDelimiter : string;
  AsyncFunctionInvocation : bool;
  AsyncFunctionCallbackURL : string;
  PrintSync : bool;
  ContentType : string;
  BasicAuth : bool;
  UserAgent : string;
  Namespace : string;
  SendTopic : bool;
  TopicMatcher : option MatchTopicFunc
}.
End ControllerConfig.

(** What the controller takes from outside the files at hand:
    [MakeClient], the HTTP client for a timeout, and [sdk.NewClient], the
    gateway client for a gateway URL and an HTTP client (the credentials
    are left out). *)
Class Gateway := {
  MakeClient : Z -> http_Client;
  sdk_NewClient : string -> http_Client -> sdk_Client
}.

(** A [ResponseSubscriber]: the [ResponsePrinter] the controller installs
    itself, or a receiver of the application. *)
Inductive ResponseSubscriber :=
  | ResponsePrinter (PrintResponseBody : bool)
  | Receiver (name : string).

Module controller.
(** The lock is left out, and so are the credentials, which the
    controller only hands on to [sdk.NewClient]. *)
Record t := mk {
  Config : ControllerConfig.t;
  Invoker : Invoker.t;
  TopicMap : TopicMap;
  Subscribers : list ResponseSubscriber
}.
End controller.

Definition gatewayRoute (config : ControllerConfig.t) : string :=
  if ControllerConfig.AsyncFunctionInvocation config
  then ControllerConfig.GatewayURL config +:+ "/" +:+ "async-function"
  else ControllerConfig.GatewayURL config +:+ "/" +:+ "function".

Definition Subscribe (c : controller.t) (subscriber : ResponseSubscriber)
    : controller.t :=
  {| controller.Config := controller.Config c;
     controller.Invoker := controller.Invoker c;
     controller.TopicMap := controller.TopicMap c;
     controller.Subscribers := controller.Subscribers c ++ [subscriber] |}.

Section controller_ops.
Context `{GoRuntime} `{GoStrings} `{Gateway}.

(** [NewController], without the goroutine it starts to hand the
    responses to the subscribers. *)
Definition NewController (config : ControllerConfig.t) : controller.t :=
  let gatewayFunctionPath := gatewayRoute config in
  let invoker :=
    NewInvoker gatewayFunctionPath
      (MakeClient (ControllerConfig.UpstreamTimeout config))
      (ControllerConfig.ContentType config)
      (ControllerConfig.PrintResponse config)
      (ControllerConfig.PrintRequestBody config)
      [WithInvokerUserAgent (ControllerConfig.UserAgent config);
       WithInvokerAsyncCallbackURL (ControllerConfig.AsyncFunctionCallbackURL config);
       WithInvokerSendTopic (ControllerConfig.SendTopic config)] in
  let c :=
    {| controller.Config := config;
       controller.Invoker := invoker;
       controller.TopicMap := NewTopicMap (ControllerConfig.TopicMatcher config);
       controller.Subscribers := [] |} in
  if ControllerConfig.PrintResponse config
  then Subscribe c (ResponsePrinter (ControllerConfig.PrintResponseBody config))
  else c.

Definition controller_InvokeWithContext (c : controller.t) (ctx : Context)
    (topic : string) (message : option bytes) (headers : option http_Header)
    (opts : list InvokeOptionFunc) : M unit :=
  InvokeWithTopic (controller.Invoker c) ctx (Some (controller.TopicMap c))
    topic message headers opts.

(** [context.Background()] *)
Definition context_Background : Context := 0%nat.

Definition controller_Invoke (c : controller.t) (topic : string)
    (message : option bytes) (headers : option http_Header)
    (opts : list InvokeOptionFunc) : M unit :=
  controller_InvokeWithContext c context_Background topic message headers opts.

Definition controller_Topics (c : controller.t) : list string :=
  Topics (controller.TopicMap c).



(** One run of the function [synchronizeLookups] calls at once and on
    every tick: [None] is [log.Fatalln], the end of the process. *)
Definition synchronize (c : controller.t) (lookupBuilder : FunctionLookupBuilder.t)
    : option controller.t :=
  let '(lookups, err) := Build lookupBuilder in
  match err with
  | Some _ => None
  | None =>
      Some {| controller.Config := controller.Config c;
              controller.Invoker := controller.Invoker c;
              controller.TopicMap := Sync (controller.TopicMap c) lookups;
              controller.Subscribers := controller.Subscribers c |}
  end.
End controller_ops.

(** ** credentials.go *)

Module BasicAuth.
(** [sdk.BasicAuth] *)
Record t := mk {
  Username : string;
  Password : string
}.
End BasicAuth.

Module BasicAuthCredentials.
(** [auth.BasicAuthCredentials], what the reader of the secrets returns. *)
Record t := mk {
  User : string;
  Password : string
}.
End BasicAuthCredentials.

(** The process environment and [auth.ReadBasicAuthFromDisk.Read] for a
    secret mount path. *)
Class Host := {
  environ : gmap string string;
  ReadBasicAuthFromDisk : string -> error + BasicAuthCredentials.t
}.

(** [p.field = v] through a pointer: the new pointee, a panic for nil. *)
Definition store {A} (p : option A) (update : A -> A) : Result (option A) :=
  match p with
  | Some a => Ok (Some (update a))
  | None => Panic
  end.

Section credentials.
Context `{Host}.

(** [os.LookupEnv] *)
Definition os_LookupEnv (key : string) : string * bool :=
  match environ !! key with
  | Some val => (val, true)
  | None => ("", false)
  end.

(** [os.Getenv] *)
Definition os_Getenv (key : string) : string := (os_LookupEnv key).1.

Definition GetCredentials : Result (option BasicAuth.t) :=
  let credentials : option BasicAuth.t := None in
  let '(val, ok) := os_LookupEnv "basic_auth" in
  if ok && (0 <? String.length val)%nat
  then
    if bool_decide (val = "true") || bool_decide (val = "1")
    then
      let SecretMountPath := "" in
      let '(val', ok') := os_LookupEnv "secret_mount_path" in
      let SecretMountPath :=
        if ok' && (0 <? String.length val')%nat
        then os_Getenv "secret_mount_path"
        else SecretMountPath in
      match ReadBasicAuthFromDisk SecretMountPath with
      | inl err => Panic
      | inr res =>
          match store credentials
                  (fun c => {| BasicAuth.Username := BasicAuthCredentials.User res;
                               BasicAuth.Password := BasicAuth.Password c |}) with
          | Panic => Panic
          | Ok credentials =>
              match store credentials
                      (fun c => {| BasicAuth.Username := BasicAuth.Username c;
                                   BasicAuth.Password :=
                                     BasicAuthCredentials.Password res |}) with
              | Panic => Panic
              | Ok credentials => Ok credentials
              end
          end
      end
    else Ok credentials
  else Ok credentials.
End credentials.

(** ** The earlier invoker (types/invoker.go)

    The invoker before the options: headers are a [map[string]string],
    the responses have no duration, and the whole of an invocation by
    topic is one function. *)

Module Legacy.

Module InvokerResponse.
Record t := mk {
  Context : Context;
  Body : option bytes;
  Header : option http_Header;
  Status : Z;
  Error : option error;
  Topic : string;
  Function : string
}.
End InvokerResponse.

Module Invoker.
Record t := mk {
  PrintResponse : bool;
  Client : http_Client;
  GatewayURL : string;
  ContentType : string;
  CallbackURL : string;
  SendTopic : bool
}.
End Invoker.

Definition NewInvoker (gatewayURL : string) (client : http_Client)
    (contentType callbackURL : string) (printResponse sendTopic : bool)
    : Invoker.t :=
  {| Invoker.PrintResponse := printResponse;
     Invoker.Client := client;
     Invoker.GatewayURL := gatewayURL;
     Invoker.ContentType := contentType;
     Invoker.CallbackURL := callbackURL;
     Invoker.SendTopic := sendTopic |}.

(** The channel and the client's log of this invoker. *)
Record World := mkWorld {
  Responses : list InvokerResponse.t;
  round_trips : list Request.t
}.

(** [headers[key] = value] on a [map[string]string]: a nil map cannot be
    written to. *)
Definition map_assign (headers : option (gmap string string)) (key value : string)
    : Result (option (gmap string string)) :=
  match headers with
  | Some m => Ok (Some (<[key := value]> m))
  | None => Panic
  end.

(** [getHeaders]: the named result [headers] is never made. *)
Definition getHeaders (i : Invoker.t) (topic : string)
    : Result (option (gmap string string)) :=
  let headers : option (gmap string string) := None in
  match (if Invoker.SendTopic i && bool_decide (topic ≠ "")
         then map_assign headers "X-Topic" topic
         else Ok headers) with
  | Panic => Panic
  | Ok headers =>
      match (if bool_decide (Invoker.CallbackURL i ≠ "")
             then map_assign headers "X-Callback-Url" (Invoker.CallbackURL i)
             else Ok headers) with
      | Panic => Panic
      | Ok headers =>
          if bool_decide (Invoker.ContentType i ≠ "")
          then map_assign headers "Content-Type" (Invoker.ContentType i)
          else Ok headers
      end
  end.

Section legacy_invoker.
Context `{GoRuntime}.

(** [invokeFunction]; the entries of [headers] are visited as those of
    the map with each value as a one-element list. On a body that cannot
    be read the error returned is [doErr], which is nil there. *)
Definition invokeFunction (ctx : Context) (c : http_Client) (gwURL : string)
    (reader : bytes) (headers : option (gmap string string)) (w : World)
    : (option bytes * Z * option http_Header * option error) * World :=
  match new_request_error gwURL with
  | Some err => ((None, StatusServiceUnavailable, None, Some err), w)
  | None =>
      let reqHeader :=
        add_all ∅
          (range_entries
             ((fun v => [v]) <$> match headers with
                                 | Some m => m
                                 | None => ∅
                                 end)) in
      let httpReq := {| Request.Method := MethodPost;
                        Request.URL := gwURL;
                        Request.Header := reqHeader;
                        Request.Body := reader;
                        Request.Ctx := ctx |} in
      let '(out, _) := c (round_trips w) httpReq in
      let w := {| Responses := Responses w;
                  round_trips := round_trips w ++ [httpReq] |} in
      match out with
      | DoErr doErr => ((None, StatusServiceUnavailable, None, Some doErr), w)
      | DoOk res =>
          match Response.Body res with
          | Some (ReadErr readErr) =>
              ((None, StatusServiceUnavailable, None, None), w)
          | Some (ReadOk bytesOut) =>
              ((Some bytesOut, Response.StatusCode res,
                Some (Response.Header res), None), w)
          | None =>
              ((None, Response.StatusCode res, Some (Response.Header res), None), w)
          end
      end
  end.

Definition send (r : InvokerResponse.t) (w : World) : World :=
  {| Responses := Responses w ++ [r]; round_trips := round_trips w |}.

(** [errors.Wrap(err, message)] *)
Definition errors_Wrap (err : error) (message : string) : error :=
  wrapError (message +:+ ": " +:+ Error_msg err) err.

(** The loop of [InvokeWithContext] over the matched functions. *)
Fixpoint invoke_matched (i : Invoker.t) (ctx : Context) (topic : string)
    (message : bytes) (matchedFunctions : list string) (w : World)
    : Result World :=
  match matchedFunctions with
  | [] => Ok w
  | matchedFunction :: rest =>
      let gwURL := Invoker.GatewayURL i +:+ "/" +:+ matchedFunction in
      match getHeaders i topic with
      | Panic => Panic
      | Ok headers =>
          let '((body, statusCode, header, doErr), w) :=
            invokeFunction ctx (Invoker.Client i) gwURL message headers w in
          match doErr with
          | Some doErr =>
              invoke_matched i ctx topic message rest
                (send {| InvokerResponse.Context := ctx;
                         InvokerResponse.Body := None;
                         InvokerResponse.Header := None;
                         InvokerResponse.Status := 0;
                         InvokerResponse.Error :=
                           Some (errors_Wrap doErr
                                   ("unable to invoke " +:+ matchedFunction));
                         InvokerResponse.Topic := "";
                         InvokerResponse.Function := "" |} w)
          | None =>
              invoke_matched i ctx topic message rest
                (send {| InvokerResponse.Context := ctx;
                         InvokerResponse.Body := body;
                         InvokerResponse.Header := header;
                         InvokerResponse.Status := statusCode;
                         InvokerResponse.Error := None;
                         InvokerResponse.Topic := topic;
                         InvokerResponse.Function := matchedFunction |} w)
          end
      end
  end.

(** [InvokeWithContext]: the response for an empty message is not
    followed by a return. The topic map is not nil. *)
Definition InvokeWithContext (i : Invoker.t) (ctx : Context) (topicMap : TopicMap)
    (topic : string) (message : option bytes) (w : World) : Result World :=
  match message with
  | None => Panic
  | Some m =>
      let w :=
        if bool_decide (length m = 0%nat)
        then send {| InvokerResponse.Context := ctx;
                     InvokerResponse.Body := None;
                     InvokerResponse.Header := None;
                     InvokerResponse.Status := 0;
                     InvokerResponse.Error := Some (errorString "no message to send");
                     InvokerResponse.Topic := "";
                     InvokerResponse.Function := "" |} w
        else w in
      let matchedFunctions := Match topicMap topic in
      invoke_matched i ctx topic m matchedFunctions w
  end.
End legacy_invoker.

End Legacy.
(** ** Vocabulary for the lookup builder *)

(** [fmt.Sprintf("%s%s%s", function, sep, namespace)] of
    [appendServiceMap]. *)
Definition functionPath (function namespace : string) : string :=
  function +:+ (if (0 <? String.length namespace)%nat then "." else "") +:+ namespace.

(** The pieces of a topic annotation: the annotation cut at the
    delimiter, the whole annotation when there is no delimiter. *)
Definition topic_pieces (topicDelimiter topicNames : string) : list string :=
  if (0 <? String.length topicDelimiter)%nat
  then strings_Split topicNames topicDelimiter
  else [topicNames].

Section registered.
Context `{GoStrings}.

(** The keys a function registers under: the trimmed pieces of its
    [topic] annotation that are not empty, in order, repeated as the
    annotation repeats them. *)
Definition registered_topics (topicDelimiter : string)
    (function : FunctionStatus.t) : list string :=
  match FunctionStatus.Annotations function with
  | Some annotations =>
      match annotations !! "topic" with
      | Some topicNames =>
          filter (fun key => key ≠ "")
                 (TrimSpace <$> topic_pieces topicDelimiter topicNames)
      | None => []
      end
  | None => []
  end.

(** The handlers the functions of one namespace add under [key], in the
    order of the listing. *)
Definition handlers_added (key topicDelimiter namespace : string)
    (functions : list FunctionStatus.t) : list string :=
  mjoin ((fun function =>
            (fun _ => functionPath (FunctionStatus.Name function) namespace) <$>
              filter (fun k => k = key) (registered_topics topicDelimiter function))
         <$> functions).
End registered.

(** A sample [TrimSpace]: blanks are cut off both ends. *)
Fixpoint drop_blanks (s : string) : string :=
  match s with
  | String c s' => if bool_decide (c = " "%char) then drop_blanks s' else s
  | EmptyString => EmptyString
  end.

Definition trim_blanks : GoStrings :=
  {| TrimSpace := fun s => String.rev (drop_blanks (String.rev (drop_blanks s))) |}.

(** A gateway with two namespaces, after the builder's tests. *)
Definition sample_functions (namespace : string) : list FunctionStatus.t :=
  if bool_decide (namespace = "openfaas-fn")
  then [ {| FunctionStatus.Name := "echo";
            FunctionStatus.Namespace := "openfaas-fn";
            FunctionStatus.Annotations := Some {["topic" := "topic1, topic2"]} |};
         {| FunctionStatus.Name := "nodeinfo";
            FunctionStatus.Namespace := "openfaas-fn";
            FunctionStatus.Annotations := None |} ]
  else [ {| FunctionStatus.Name := "figlet";
            FunctionStatus.Namespace := namespace;
            FunctionStatus.Annotations := Some {["topic" := "topic1"]} |} ].

Definition sample_sdk : sdk_Client :=
  {| GetNamespaces := inr ["openfaas-fn"; "namespace2"];
     GetFunctions := fun namespace => inr (sample_functions namespace) |}.

(** A gateway that cannot list the functions of [namespace2]. *)
Definition failing_sdk : sdk_Client :=
  {| GetNamespaces := inr ["openfaas-fn"; "namespace2"];
     GetFunctions := fun namespace =>
       if bool_decide (namespace = "namespace2")
       then inl (errorString "connection refused")
       else inr (sample_functions namespace) |}.

Definition sample_builder (namespace : string) (sdk : sdk_Client)
    : FunctionLookupBuilder.t :=
  {| FunctionLookupBuilder.TopicDelimiter := ",";
     FunctionLookupBuilder.Namespace := namespace;
     FunctionLookupBuilder.sdk := sdk |}.





(** A host whose environment asks for basic auth and whose secrets can
    be read. *)
Definition sample_host : Host :=
  {| environ := {["basic_auth" := "true"]};
     ReadBasicAuthFromDisk := fun _ =>
       inr {| BasicAuthCredentials.User := "admin";
              BasicAuthCredentials.Password := "secret" |} |}.

(** A server whose answer breaks off while the body is read. *)
Definition unexpected_EOF : error := errorString "unexpected EOF".

Definition truncating : http_Client :=
  fun _ _ =>
    (DoOk {| Response.StatusCode := 200;
             Response.Header := ∅;
             Response.Body := Some (ReadErr unexpected_EOF) |}, 1).

(** ** Proof steps *)

(** Evaluate the canonical form of literal header names. *)
Ltac canon_literals :=
  repeat match goal with
  | |- context [CanonicalHeaderKey (String ?c ?s)] =>
      let v := eval vm_compute in (CanonicalHeaderKey (String c s)) in
      change (CanonicalHeaderKey (String c s)) with v
  end.

(** Split on the settings [build_headers] tests. *)
Ltac build_headers_cases :=
  unfold build_headers, caller_headers;
  repeat match goal with
  | |- context [bool_decide ?P] => destruct (bool_decide P)
  | |- context [if InvokerOptions.sendTopic ?o then _ else _] =>
      destruct (InvokerOptions.sendTopic o)
  end.

(** * Properties *)

(** ** Map iteration *)

Section range_facts.
Context `{GoRuntime}.

Lemma range_elem_of (m : gmap string (list string)) k v :
  (k, v) ∈ range_entries m <-> m !! k = Some v.
Proof. rewrite range_entries_perm. apply elem_of_map_to_list. Qed.

Lemma range_NoDup_fst (m : gmap string (list string)) :
  NoDup (range_entries m).*1.
Proof. rewrite range_entries_perm. apply NoDup_fst_map_to_list. Qed.
End range_facts.

(** In a list of entries with distinct keys, selecting one key yields the
    entry of that key, if any. *)
Lemma filter_fst_absent (l : list (string * list string)) (K : string) :
  K ∉ l.*1 -> filter (fun kv => kv.1 = K) l = [].
Proof.
  induction l as [|[k v] l IH]; intros Hk; [done|].
  rewrite fmap_cons in Hk. apply not_elem_of_cons in Hk as [Hne Hk].
  rewrite filter_cons_False; [by apply IH|]. cbn in *. congruence.
Qed.

Lemma filter_fst_present (l : list (string * list string)) (K : string) v :
  NoDup l.*1 -> (K, v) ∈ l -> filter (fun kv => kv.1 = K) l = [(K, v)].
Proof.
  induction l as [|[k v'] l IH]; intros Hnd Hin; [by apply elem_of_nil in Hin|].
  rewrite fmap_cons in Hnd. apply NoDup_cons in Hnd as [Hk Hnd].
  apply elem_of_cons in Hin as [Heq|Hin].
  - injection Heq as <- <-. rewrite filter_cons_True by done.
    by rewrite filter_fst_absent.
  - rewrite filter_cons_False; [by apply IH|].
    cbn. intros ->. apply Hk. apply list_elem_of_fmap. by exists (K, v).
Qed.

Section range_filter.
Context `{GoRuntime}.

Lemma range_filter_key (m : gmap string (list string)) (K : string) :
  filter (fun kv => kv.1 = K) (range_entries m) =
    match m !! K with
    | Some v => [(K, v)]
    | None => []
    end.
Proof.
  destruct (m !! K) as [v|] eqn:Hm.
  - apply filter_fst_present; [apply range_NoDup_fst|by apply range_elem_of].
  - apply filter_fst_absent. intros Hin.
    apply list_elem_of_fmap in Hin as [[k v] [-> Hin]].
    apply range_elem_of in Hin. cbn in Hm. congruence.
Qed.
End range_filter.

(** ** The topic map *)

Section topic_map_facts.
Context `{GoRuntime}.

Lemma Match_loop (mf : MatchTopicFunc) (T : string)
    (l : list (string * list string)) (acc : list string) :
  fold_left
    (fun (values : list string) (kf : string * list string) =>
       if mf T (fst kf) then values ++ snd kf else values) l acc
  = acc ++ mjoin (snd <$> filter (fun kf => Is_true (mf T kf.1)) l).
Proof.
  revert acc. induction l as [|[k fs] l IH]; intros acc; cbn [fold_left].
  - by rewrite app_nil_r.
  - rewrite IH, filter_cons. cbn beta. cbn [fst snd].
    destruct (mf T k) eqn:Hm.
    + rewrite decide_True by done. cbn. by rewrite (assoc_L (++)).
    + rewrite decide_False; [done|]. by intros [].
Qed.

Lemma Match_unfold (t : TopicMap) (T : string) :
  Match t T =
    mjoin (snd <$> filter (fun kf => Is_true (active_match t T kf.1))
                          (range_entries (lookup_table t))).
Proof. unfold Match, active_match. by rewrite Match_loop. Qed.

Lemma Match_elem_of (t : TopicMap) (T f : string) :
  f ∈ Match t T <->
  exists k fs, lookup_table t !! k = Some fs /\
               active_match t T k = true /\ f ∈ fs.
Proof.
  rewrite Match_unfold, list_elem_of_join. split.
  - intros (fs & Hf & Hfs).
    apply list_elem_of_fmap in Hfs as ([k fs'] & -> & Hin).
    apply list_elem_of_filter in Hin as [Hm Hin].
    apply range_elem_of in Hin. exists k, fs'. cbn in *.
    split_and!; [done| by apply Is_true_true |done].
  - intros (k & fs & Hk & Hm & Hf). exists fs. split; [done|].
    apply list_elem_of_fmap. exists (k, fs). split; [done|].
    apply list_elem_of_filter. split; [by apply Is_true_true|].
    by apply range_elem_of.
Qed.

Lemma Topics_loop (l : list (string * list string)) (acc : list string) :
  fold_left (fun (topics : list string) (kf : string * list string) =>
               topics ++ [fst kf]) l acc
  = acc ++ l.*1.
Proof.
  revert acc. induction l as [|kf l IH]; intros acc; cbn [fold_left].
  - by rewrite app_nil_r.
  - rewrite IH, fmap_cons. by rewrite <- (assoc_L (++)).
Qed.

Lemma Topics_unfold (t : TopicMap) :
  Topics t = (range_entries (lookup_table t)).*1.
Proof. unfold Topics. by rewrite Topics_loop. Qed.

(** With equality as the predicate, matching is a lookup. *)
Lemma Match_equality (t : TopicMap) (T : string) :
  active_match t = defaultMatchTopic ->
  Match t T = default [] (lookup_table t !! T).
Proof.
  intros Heq. rewrite Match_unfold, Heq.
  rewrite (list_filter_iff _ (fun kv => kv.1 = T)).
  - rewrite range_filter_key.
    destruct (lookup_table t !! T); cbn; [by rewrite app_nil_r|done].
  - intros [k fs]. cbn. unfold defaultMatchTopic.
    rewrite bool_decide_spec. naive_solver.
Qed.
End topic_map_facts.

(** C1. On a table installed by [Sync M], [Match T] is the concatenation,
    over the keys of [M] on which the active match function holds with [T]
    and in the order the table is visited, of the whole handler list of
    each key in its stored order: every occurrence is kept (the result has
    the same members with the same multiplicities as the concatenation
    over the entries of [M]), a handler is returned exactly when it is
    listed under a matching key, and when no key matches the result is the
    empty sequence. *)
Theorem Match_concatenates_matching_entries `{GoRuntime}
    (t : TopicMap) (M : gmap string (list string)) (T : string) :
  Match (Sync t M) T =
    mjoin (snd <$> filter (fun kf => Is_true (active_match t T kf.1))
                          (range_entries M)) /\
  Match (Sync t M) T ≡ₚ
    mjoin (snd <$> filter (fun kf => Is_true (active_match t T kf.1))
                          (map_to_list M)) /\
  (forall f, f ∈ Match (Sync t M) T <->
             exists k fs, M !! k = Some fs /\ active_match t T k = true /\ f ∈ fs) /\
  ((forall k, is_Some (M !! k) -> active_match t T k = false) ->
   Match (Sync t M) T = []).
Proof.
  assert (Hseq : Match (Sync t M) T =
                 mjoin (snd <$> filter (fun kf => Is_true (active_match t T kf.1))
                                       (range_entries M))).
  { by rewrite Match_unfold. }
  split_and!.
  - done.
  - rewrite Hseq. by rewrite range_entries_perm.
  - intros f. by rewrite Match_elem_of.
  - intros Hnone. apply elem_of_nil_inv. intros f Hf.
    apply Match_elem_of in Hf as (k & fs & Hk & Hm & _).
    change (active_match t T k = true) in Hm. cbn in Hk.
    rewrite Hnone in Hm; [done|]. by exists fs.
Qed.

(** C4. After [Sync M'] the table is [M']: [Topics] returns the keys of
    [M'], each once; a key is listed exactly when [M'] has it, so keys of
    the previous table that [M'] lacks are gone; [Match] returns handlers
    of entries of [M'] only; and neither [Match] nor [Topics] depends on
    the table that was installed before. *)
Theorem Sync_replaces_whole_table `{GoRuntime}
    (t : TopicMap) (previous M' : gmap string (list string)) (T : string) :
  lookup_table (Sync t M') = M' /\
  Topics (Sync t M') ≡ₚ (map_to_list M').*1 /\
  NoDup (Topics (Sync t M')) /\
  (forall k, k ∈ Topics (Sync t M') <-> is_Some (M' !! k)) /\
  (forall f, f ∈ Match (Sync t M') T <->
             exists k fs, M' !! k = Some fs /\ active_match t T k = true /\ f ∈ fs) /\
  Match (Sync t M') T = Match (Sync (mkTopicMap previous (matchFunc t)) M') T /\
  Topics (Sync t M') = Topics (Sync (mkTopicMap previous (matchFunc t)) M').
Proof.
  split_and!; try done.
  - rewrite Topics_unfold. cbn. by rewrite range_entries_perm.
  - rewrite Topics_unfold. apply range_NoDup_fst.
  - intros k. rewrite Topics_unfold, list_elem_of_fmap. cbn. split.
    + intros ([k' v] & -> & Hin). apply range_elem_of in Hin. by exists v.
    + intros [v Hv]. exists (k, v). split; [done|]. by apply range_elem_of.
  - intros f. by rewrite Match_elem_of.
Qed.

(** C9. A topic map whose match function is unset, whether built by
    [NewTopicMap] or as a struct literal, matches by string equality:
    [Match T] is the handler list stored under [T], empty when [T] is not
    a key. On the table [{"payment": ["a.fn"]}], [Match "payment"] is
    [["a.fn"]] and [Match "Payment"] is empty. *)
Theorem unset_match_function_is_equality `{GoRuntime}
    (table : gmap string (list string)) (T : string) :
  Match (mkTopicMap table None) T = default [] (table !! T) /\
  Match (Sync (NewTopicMap None) table) T = default [] (table !! T) /\
  Match (Sync (NewTopicMap None) {["payment" := ["a.fn"]]}) "payment" = ["a.fn"] /\
  Match (Sync (NewTopicMap None) {["payment" := ["a.fn"]]}) "Payment" = [] /\
  Match (mkTopicMap {["payment" := ["a.fn"]]} None) "payment" = ["a.fn"] /\
  Match (mkTopicMap {["payment" := ["a.fn"]]} None) "Payment" = [].
Proof.
  split_and!; by rewrite Match_equality.
Qed.

(** ** Header sets *)

Lemma header_values_Set (h : http_Header) (k v K : string) :
  header_values (Header_Set h k v) K =
    if decide (CanonicalHeaderKey k = K) then [v] else header_values h K.
Proof.
  unfold header_values, Header_Set. rewrite lookup_insert.
  by case_decide.
Qed.

Lemma header_values_Add (h : http_Header) (k v K : string) :
  header_values (Header_Add h k v) K =
    if decide (CanonicalHeaderKey k = K)
    then header_values h K ++ [v]
    else header_values h K.
Proof.
  unfold Header_Add. unfold header_values at 1. rewrite lookup_insert.
  case_decide; [by subst K|done].
Qed.

Lemma header_values_Add_each (h : http_Header) (k : string)
    (values : list string) (K : string) :
  header_values
    (fold_left (fun (h' : http_Header) (value : string) => Header_Add h' k value)
               values h) K =
  header_values h K ++ (if decide (CanonicalHeaderKey k = K) then values else []).
Proof.
  revert h. induction values as [|v vs IH]; intros h; cbn [fold_left].
  - case_decide; by rewrite app_nil_r.
  - rewrite IH, header_values_Add.
    case_decide; [by rewrite <- (assoc_L (++))|done].
Qed.

(** Adding a header set to a request appends, under each canonical key,
    the values of every key that canonicalises to it, in the order the
    set is visited. *)
Lemma header_values_add_all (h : http_Header)
    (entries : list (string * list string)) (K : string) :
  header_values (add_all h entries) K =
  header_values h K ++
  mjoin (snd <$> filter (fun kv => CanonicalHeaderKey kv.1 = K) entries).
Proof.
  unfold add_all. revert h.
  induction entries as [|[k vs] l IH]; intros h; cbn [fold_left].
  - by rewrite app_nil_r.
  - rewrite IH, header_values_Add_each, filter_cons. cbn [fst snd].
    cbn beta. cbn [fst]. case_decide; cbn.
    + by rewrite (assoc_L (++)).
    + by rewrite app_nil_r.
Qed.

Section header_facts.
Context `{GoRuntime}.

Lemma header_values_add_range (h0 h : http_Header) (K : string) :
  canonical_keys h ->
  header_values (add_all h0 (range_entries h)) K =
  header_values h0 K ++ header_values h K.
Proof.
  intros Hcanon. rewrite header_values_add_all. f_equal.
  assert (Hfilter :
    filter (fun kv : string * list string => CanonicalHeaderKey kv.1 = K)
           (range_entries h)
    = filter (fun kv => kv.1 = K) (range_entries h)).
  { pose proof (fun k v => proj1 (range_elem_of h k v)) as Hin.
    induction (range_entries h) as [|[k v] l IH]; [done|].
    rewrite !filter_cons. cbn beta. cbn [fst].
    assert (CanonicalHeaderKey k = k) as ->.
    { apply (Hcanon k v). apply Hin. by left. }
    rewrite IH; [done|]. intros k' v' Hk'. apply Hin. by right. }
  rewrite Hfilter, range_filter_key. unfold header_values.
  destruct (h !! K); cbn; [by rewrite app_nil_r|done].
Qed.
End header_facts.

(** ** The headers [Invoke] builds *)

Lemma build_headers_X_Topic (i : Invoker.t) (o : InvokeOptions.t)
    (headers : option http_Header) :
  header_values (build_headers i o headers) "X-Topic" =
    if InvokerOptions.sendTopic (Invoker.opts i)
    then [InvokeOptions.topic o]
    else header_values (caller_headers headers) "X-Topic".
Proof.
  build_headers_cases; rewrite ?header_values_Set; canon_literals;
    repeat case_decide; done.
Qed.

Lemma build_headers_Content_Type (i : Invoker.t) (o : InvokeOptions.t)
    (headers : option http_Header) :
  header_values (build_headers i o headers) "Content-Type" =
    if bool_decide (InvokeOptions.contentType o ≠ "")
    then [InvokeOptions.contentType o]
    else if bool_decide (Invoker.ContentType i ≠ "")
    then [Invoker.ContentType i]
    else header_values (caller_headers headers) "Content-Type".
Proof.
  build_headers_cases; rewrite ?header_values_Set; canon_literals;
    repeat case_decide; done.
Qed.

Lemma build_headers_X_Callback_Url (i : Invoker.t) (o : InvokeOptions.t)
    (headers : option http_Header) :
  header_values (build_headers i o headers) "X-Callback-Url" =
    if bool_decide (InvokeOptions.asyncCallbackURL o ≠ "")
    then [InvokeOptions.asyncCallbackURL o]
    else if bool_decide (InvokerOptions.asyncCallbackURL (Invoker.opts i) ≠ "")
    then [InvokerOptions.asyncCallbackURL (Invoker.opts i)]
    else header_values (caller_headers headers) "X-Callback-Url".
Proof.
  build_headers_cases; rewrite ?header_values_Set; canon_literals;
    repeat case_decide; done.
Qed.

Lemma build_headers_X_Connector (i : Invoker.t) (o : InvokeOptions.t)
    (headers : option http_Header) :
  header_values (build_headers i o headers) "X-Connector" =
    header_values (caller_headers headers) "X-Connector".
Proof.
  build_headers_cases; rewrite ?header_values_Set; canon_literals;
    repeat case_decide; done.
Qed.

Lemma canonical_keys_Set (h : http_Header) (k v : string) :
  CanonicalHeaderKey k = k -> canonical_keys h -> canonical_keys (Header_Set h k v).
Proof.
  intros Hk Hh. unfold Header_Set. rewrite Hk. by apply map_Forall_insert_2.
Qed.

Lemma build_headers_canonical (i : Invoker.t) (o : InvokeOptions.t)
    (headers : option http_Header) :
  canonical_keys (caller_headers headers) ->
  canonical_keys (build_headers i o headers).
Proof.
  intros Hc. unfold build_headers. fold (caller_headers headers).
  repeat match goal with
  | |- context [bool_decide ?P] => destruct (bool_decide P)
  | |- context [if InvokerOptions.sendTopic ?o then _ else _] =>
      destruct (InvokerOptions.sendTopic o)
  end;
    repeat (apply canonical_keys_Set; [by vm_compute|]); done.
Qed.

(** What [Invoke] writes into a header set it has already written to
    changes nothing: a second call on the same map sees the same headers. *)
Lemma build_headers_idempotent (i : Invoker.t) (o : InvokeOptions.t)
    (headers : option http_Header) :
  build_headers i o (Some (build_headers i o headers)) = build_headers i o headers.
Proof.
  unfold build_headers at 1. cbn beta iota. unfold build_headers.
  repeat match goal with
  | |- context [bool_decide ?P] => destruct (bool_decide P)
  | |- context [if InvokerOptions.sendTopic ?o then _ else _] =>
      destruct (InvokerOptions.sendTopic o)
  end;
  unfold Header_Set; canon_literals;
  apply map_eq; intros k; rewrite ?lookup_insert; repeat case_decide; congruence.
Qed.

(** A key that is not in canonical form is added under its canonical
    name, beside what [Invoke] set there. *)
Example lower_case_key_adds_a_value :
  exists values,
    (fun req => header_values (Request.Header req) "X-Topic") <$>
      issued (Invoke (test_invoker (responder 200 hi) false
                        [WithInvokerSendTopic true])
                0%nat "proc.fn1" (Some hi) (Some {["x-topic" := ["raw"]]})
                [WithInvokeTopic "orders"] idle)
    = [values] /\
    values ≡ₚ ["orders"; "raw"].
Proof.
  eexists. split; [vm_compute; reflexivity|]. apply perm_swap.
Qed.

(** ** One invocation *)

Section invoke_facts.
Context `{GoRuntime}.

Lemma wraps_Errorf_w (prefix : string) (e cause : error) :
  wraps e cause -> wraps (Errorf_w prefix e) cause.
Proof. intros Hw. cbn. by right. Qed.

Lemma wraps_refl (e : error) : wraps e e.
Proof. destruct e; by left. Qed.

(** A call that gets as far as the client: what it returns, what it
    leaves in the world, and how the response follows the round trip. *)
Lemma Invoke_round_trip (i : Invoker.t) (ctx : Context) (functionName : string)
    (message : option bytes) (headers : option http_Header)
    (opts : list InvokeOptionFunc) (w : World) :
  nil_safe i message ->
  new_request_error (gateway_url i functionName) = None ->
  exists r,
    Invoke i ctx functionName message headers opts w =
      Ok (r, {| Responses := Responses w ++ [r];
                round_trips := round_trips w ++
                  [outbound_request i ctx functionName message headers opts];
                now := now w +
                  (Invoker.Client i (round_trips w)
                     (outbound_request i ctx functionName message headers opts)).2 |}) /\
    InvokerResponse.Function r = functionName /\
    match (Invoker.Client i (round_trips w)
             (outbound_request i ctx functionName message headers opts)).1 with
    | DoErr cause => unavailable r cause
    | DoOk res =>
        match Response.Body res with
        | Some (ReadErr cause) => unavailable r cause
        | _ => InvokerResponse.Status r = Response.StatusCode res /\
               InvokerResponse.Error r = None
        end
    end.
Proof.
  intros Hsafe Hurl.
  assert (Hlog : (if Invoker.PrintRequest i
                  then (let* _ := deref message in ret tt)
                  else ret tt) w = Ok (tt, w)).
  { destruct (Invoker.PrintRequest i) eqn:Hprint; [|done].
    destruct message; [done|]. by destruct (Hsafe Hprint). }
  unfold Invoke, bind at 1. rewrite Hlog.
  unfold bind at 1. unfold time_Now.
  unfold bind at 1. unfold invoke.
  fold (gateway_url i functionName). rewrite Hurl.
  change (bool_decide (Header_Get ∅ "X-Connector" = "")) with true.
  cbn iota.
  unfold bind at 1. unfold Client_Do.
  fold (outbound_request i ctx functionName message headers opts).
  destruct (Invoker.Client i (round_trips w)
              (outbound_request i ctx functionName message headers opts))
    as [out took].
  cbn [fst snd].
  destruct out as [cause|res].
    - eexists. split; [reflexivity|]. split; [done|]. unfold unavailable. cbn.
    split_and!; [done|done|]. eexists. split; [done|].
    do 2 apply wraps_Errorf_w. apply wraps_refl.
  - destruct (Response.Body res) as [[bytesOut|cause]|].
    + eexists. split; [reflexivity|]. done.
    + eexists. split; [reflexivity|]. split; [done|]. unfold unavailable. cbn.
      split_and!; [done|done|]. eexists. split; [done|].
      do 2 apply wraps_Errorf_w. apply wraps_refl.
    + eexists. split; [reflexivity|]. done.
Qed.

(** When the URL does not parse, the call answers without a round trip. *)
Lemma Invoke_bad_url (i : Invoker.t) (ctx : Context) (functionName : string)
    (message : option bytes) (headers : option http_Header)
    (opts : list InvokeOptionFunc) (w : World) (cause : error) :
  nil_safe i message ->
  new_request_error (gateway_url i functionName) = Some cause ->
  exists r,
    Invoke i ctx functionName message headers opts w =
      Ok (r, {| Responses := Responses w ++ [r];
                round_trips := round_trips w;
                now := now w |}) /\
    InvokerResponse.Function r = functionName /\
    unavailable r cause.
Proof.
  intros Hsafe Hurl.
  assert (Hlog : (if Invoker.PrintRequest i
                  then (let* _ := deref message in ret tt)
                  else ret tt) w = Ok (tt, w)).
  { destruct (Invoker.PrintRequest i) eqn:Hprint; [|done].
    destruct message; [done|]. by destruct (Hsafe Hprint). }
  unfold Invoke, bind at 1. rewrite Hlog.
  unfold bind at 1. unfold time_Now.
  unfold bind at 1. unfold invoke.
  fold (gateway_url i functionName). rewrite Hurl.
  eexists. split; [reflexivity|]. split; [done|]. unfold unavailable. cbn.
  split_and!; [done|done|]. eexists. split; [done|].
  apply wraps_Errorf_w, wraps_refl.
Qed.

(** Outside the panic of the request log, a call sends the response it
    returns, and nothing else, on the channel. *)
Lemma Invoke_publishes_returned (i : Invoker.t) (ctx : Context)
    (functionName : string) (message : option bytes)
    (headers : option http_Header) (opts : list InvokeOptionFunc) (w : World) :
  nil_safe i message ->
  exists r w',
    Invoke i ctx functionName message headers opts w = Ok (r, w') /\
    Responses w' = Responses w ++ [r] /\
    InvokerResponse.Function r = functionName.
Proof.
  intros Hsafe.
  destruct (new_request_error (gateway_url i functionName)) as [cause|] eqn:Hurl.
  - destruct (Invoke_bad_url i ctx functionName message headers opts w cause
                Hsafe Hurl) as (r & Hrun & Hfn & _).
    eexists _, _. split; [exact Hrun|done].
  - destruct (Invoke_round_trip i ctx functionName message headers opts w
                Hsafe Hurl) as (r & Hrun & Hfn & _).
    eexists _, _. split; [exact Hrun|done].
Qed.

(** The request log dereferences the payload. *)
Lemma Invoke_logged_nil_payload (i : Invoker.t) (ctx : Context)
    (functionName : string) (headers : option http_Header)
    (opts : list InvokeOptionFunc) (w : World) :
  Invoker.PrintRequest i = true ->
  Invoke i ctx functionName None headers opts w = Panic.
Proof. intros Hprint. unfold Invoke, bind at 1. by rewrite Hprint. Qed.

(** The headers of the request, on a caller's header set with canonical
    keys: the identity header first, then what [build_headers] left
    under the key. *)
Lemma outbound_header_values (i : Invoker.t) (ctx : Context)
    (functionName : string) (message : option bytes)
    (headers : option http_Header) (opts : list InvokeOptionFunc) (K : string) :
  canonical_keys (caller_headers headers) ->
  header_values
    (Request.Header (outbound_request i ctx functionName message headers opts)) K =
  (if decide (K = "X-Connector") then ["connector-sdk"] else []) ++
  header_values (build_headers i (apply_opts InvokeOptions.zero opts) headers) K.
Proof.
  intros Hcanon. cbn [outbound_request Request.Header].
  rewrite header_values_add_range by by apply build_headers_canonical.
  f_equal. rewrite header_values_Set. canon_literals.
  repeat case_decide; naive_solver.
Qed.
End invoke_facts.

Section invoke_headers.
Context `{GoRuntime}.

(** The one request of a call and the values it carries under a key. *)
Lemma Invoke_request_headers (i : Invoker.t) (ctx : Context)
    (functionName : string) (message : option bytes)
    (headers : option http_Header) (opts : list InvokeOptionFunc) (w : World) :
  nil_safe i message ->
  new_request_error (gateway_url i functionName) = None ->
  canonical_keys (caller_headers headers) ->
  exists r w' req,
    Invoke i ctx functionName message headers opts w = Ok (r, w') /\
    round_trips w' = round_trips w ++ [req] /\
    forall K,
      header_values (Request.Header req) K =
      (if decide (K = "X-Connector") then ["connector-sdk"] else []) ++
      header_values (build_headers i (apply_opts InvokeOptions.zero opts) headers) K.
Proof.
  intros Hsafe Hurl Hcanon.
  destruct (Invoke_round_trip i ctx functionName message headers opts w
              Hsafe Hurl) as (r & Hrun & _).
  eexists _, _, _. split; [exact Hrun|]. split; [done|].
  intros K. by apply outbound_header_values.
Qed.
End invoke_headers.

(** C2. A call of [Invoke] that does not panic in its request log returns
    a response. When the request cannot be built, when the client fails
    to carry it out, or when the body of the answer cannot be read, the
    response has status 503, no body and an error that wraps the cause.
    When the client gets an answer whose body can be read (or is nil), the
    response has the status code of that answer, whatever it is, and a
    nil error. *)
Theorem Invoke_status_follows_transport `{GoRuntime}
    (i : Invoker.t) (ctx : Context) (functionName : string)
    (message : option bytes) (headers : option http_Header)
    (opts : list InvokeOptionFunc) (w : World) :
  nil_safe i message ->
  exists r w',
    Invoke i ctx functionName message headers opts w = Ok (r, w') /\
    match new_request_error (gateway_url i functionName) with
    | Some cause => unavailable r cause
    | None =>
        exists req,
          round_trips w' = round_trips w ++ [req] /\
          match (Invoker.Client i (round_trips w) req).1 with
          | DoErr cause => unavailable r cause
          | DoOk res =>
              match Response.Body res with
              | Some (ReadErr cause) => unavailable r cause
              | _ => InvokerResponse.Status r = Response.StatusCode res /\
                     InvokerResponse.Error r = None
              end
          end
    end.
Proof.
  intros Hsafe.
  destruct (new_request_error (gateway_url i functionName)) as [cause|] eqn:Hurl.
    - destruct (Invoke_bad_url i ctx functionName message headers opts w cause
                Hsafe Hurl) as (r & Hrun & _ & Hr).
    by eexists _, _.
  - destruct (Invoke_round_trip i ctx functionName message headers opts w
                Hsafe Hurl) as (r & Hrun & _ & Hr).
    eexists _, _. split; [exact Hrun|]. eexists. split; [done|]. exact Hr.
Qed.

(** C5, as the code has it. On a call that reaches the client, with a
    caller's header set in canonical form: with topic forwarding enabled
    and a non-empty topic, the request carries [X-Topic] with the topic as
    its only value, whatever the caller supplied under that name; with
    topic forwarding disabled, the request carries under [X-Topic] what
    the caller supplied, nothing when the caller supplied nothing. *)
Theorem X_Topic_follows_forwarding `{GoRuntime}
    (i : Invoker.t) (ctx : Context) (functionName : string)
    (message : option bytes) (headers : option http_Header)
    (opts : list InvokeOptionFunc) (w : World) :
  nil_safe i message ->
  new_request_error (gateway_url i functionName) = None ->
  canonical_keys (caller_headers headers) ->
  exists r w' req,
    Invoke i ctx functionName message headers opts w = Ok (r, w') /\
    round_trips w' = round_trips w ++ [req] /\
    if InvokerOptions.sendTopic (Invoker.opts i)
    then InvokeOptions.topic (apply_opts InvokeOptions.zero opts) ≠ "" ->
         header_values (Request.Header req) "X-Topic" =
           [InvokeOptions.topic (apply_opts InvokeOptions.zero opts)]
    else header_values (Request.Header req) "X-Topic" =
           header_values (caller_headers headers) "X-Topic".
Proof.
  intros Hsafe Hurl Hcanon.
  destruct (Invoke_request_headers i ctx functionName message headers opts w
              Hsafe Hurl Hcanon) as (r & w' & req & Hrun & Hreq & Hval).
  exists r, w', req. split; [done|]. split; [done|].
  rewrite Hval, build_headers_X_Topic.
  rewrite decide_False by done. cbn [app].
  by destruct (InvokerOptions.sendTopic (Invoker.opts i)).
Qed.

(** C7, as the code has it. On a call that reaches the client, with a
    caller's header set in canonical form: [Content-Type] carries the
    per-call content type when that is non-empty, else the content type of
    the invoker when that is non-empty, else what the caller supplied
    under that name (nothing when the caller supplied nothing); and
    [X-Callback-Url] carries the per-call callback URL when that is
    non-empty, else the callback URL of the invoker when that is
    non-empty, else what the caller supplied. *)
Theorem Content_Type_and_Callback_precedence `{GoRuntime}
    (i : Invoker.t) (ctx : Context) (functionName : string)
    (message : option bytes) (headers : option http_Header)
    (opts : list InvokeOptionFunc) (w : World) :
  nil_safe i message ->
  new_request_error (gateway_url i functionName) = None ->
  canonical_keys (caller_headers headers) ->
  exists r w' req,
    Invoke i ctx functionName message headers opts w = Ok (r, w') /\
    round_trips w' = round_trips w ++ [req] /\
    header_values (Request.Header req) "Content-Type" =
      (if bool_decide (InvokeOptions.contentType (apply_opts InvokeOptions.zero opts) ≠ "")
       then [InvokeOptions.contentType (apply_opts InvokeOptions.zero opts)]
       else if bool_decide (Invoker.ContentType i ≠ "")
       then [Invoker.ContentType i]
       else header_values (caller_headers headers) "Content-Type") /\
    header_values (Request.Header req) "X-Callback-Url" =
      (if bool_decide (InvokeOptions.asyncCallbackURL (apply_opts InvokeOptions.zero opts) ≠ "")
       then [InvokeOptions.asyncCallbackURL (apply_opts InvokeOptions.zero opts)]
       else if bool_decide (InvokerOptions.asyncCallbackURL (Invoker.opts i) ≠ "")
       then [InvokerOptions.asyncCallbackURL (Invoker.opts i)]
       else header_values (caller_headers headers) "X-Callback-Url").
Proof.
  intros Hsafe Hurl Hcanon.
  destruct (Invoke_request_headers i ctx functionName message headers opts w
              Hsafe Hurl Hcanon) as (r & w' & req & Hrun & Hreq & Hval).
  exists r, w', req. split; [done|]. split; [done|].
  rewrite !Hval, build_headers_Content_Type, build_headers_X_Callback_Url.
  by rewrite !decide_False by done.
Qed.

(** Witness of C2: the unreachable host of the package's network-error
    test. *)
Lemma Invoke_status_follows_transport_witness :
  nil_safe (test_invoker unreachable false []) (Some hi) /\
  exists r w',
    Invoke (test_invoker unreachable false []) 0%nat "test-function"
      (Some hi) (Some ∅) [] idle = Ok (r, w') /\
    exists req, round_trips w' = [req] /\ unavailable r dial_error.
Proof.
  assert (Hsafe : nil_safe (test_invoker unreachable false []) (Some hi))
    by (intros _; discriminate).
  split; [exact Hsafe|].
  exact (Invoke_status_follows_transport
           (test_invoker unreachable false []) 0%nat "test-function"
           (Some hi) (Some ∅) [] idle Hsafe).
Defined.

(** Witness of C5: forwarding enabled, topic ["orders"], and a caller who
    supplied an [X-Topic] of their own. *)
Lemma X_Topic_follows_forwarding_witness :
  nil_safe (test_invoker (responder 200 hi) false [WithInvokerSendTopic true])
           (Some hi) /\
  canonical_keys (caller_headers (Some {["X-Topic" := ["mine"]]})) /\
  exists r w' req,
    Invoke (test_invoker (responder 200 hi) false [WithInvokerSendTopic true])
      0%nat "proc.fn1" (Some hi) (Some {["X-Topic" := ["mine"]]})
      [WithInvokeTopic "orders"] idle = Ok (r, w') /\
    round_trips w' = [req] /\
    ("orders" ≠ "" -> header_values (Request.Header req) "X-Topic" = ["orders"]).
Proof.
  assert (Hsafe : nil_safe (test_invoker (responder 200 hi) false
                              [WithInvokerSendTopic true]) (Some hi))
    by (intros _; discriminate).
  assert (Hcanon : canonical_keys (caller_headers (Some {["X-Topic" := ["mine"]]})))
    by (by apply map_Forall_singleton).
  split; [exact Hsafe|]. split; [exact Hcanon|].
  exact (X_Topic_follows_forwarding
           (test_invoker (responder 200 hi) false [WithInvokerSendTopic true])
           0%nat "proc.fn1" (Some hi) (Some {["X-Topic" := ["mine"]]})
           [WithInvokeTopic "orders"] idle Hsafe eq_refl Hcanon).
Defined.

(** Counterexample to C5 as stated. With forwarding disabled, the
    [X-Topic] the caller supplied goes out; with forwarding enabled and no
    topic, [X-Topic] goes out with an empty value. In both runs the claim
    has the header absent. *)
Lemma X_Topic_present_against_claim :
  (InvokerOptions.sendTopic
     (Invoker.opts (test_invoker (responder 200 hi) false
                      [WithInvokerSendTopic false])) = false /\
   (fun req => header_values (Request.Header req) "X-Topic") <$>
     issued (Invoke (test_invoker (responder 200 hi) false
                       [WithInvokerSendTopic false])
               0%nat "proc.fn1" (Some hi) (Some {["X-Topic" := ["mine"]]})
               [WithInvokeTopic "orders"] idle)
   = [["mine"]]) /\
  (InvokeOptions.topic (apply_opts InvokeOptions.zero []) = "" /\
   (fun req => header_values (Request.Header req) "X-Topic") <$>
     issued (Invoke (test_invoker (responder 200 hi) false
                       [WithInvokerSendTopic true])
               0%nat "proc.fn1" (Some hi) None [] idle)
   = [[""]]).
Proof. split; split; vm_compute; reflexivity. Qed.

(** Witness of C7: a per-call content type over the default of the
    invoker, and the default callback URL of the invoker. *)
Lemma Content_Type_and_Callback_precedence_witness :
  nil_safe (test_invoker (responder 200 hi) false
              [WithInvokerAsyncCallbackURL "http://default-callback"])
           (Some hi) /\
  canonical_keys (caller_headers (Some {["Custom-Header" := ["value"]]})) /\
  exists r w' req,
    Invoke (test_invoker (responder 200 hi) false
              [WithInvokerAsyncCallbackURL "http://default-callback"])
      0%nat "test-function" (Some hi) (Some {["Custom-Header" := ["value"]]})
      [WithInvokeContentType "plain/text"] idle = Ok (r, w') /\
    round_trips w' = [req] /\
    header_values (Request.Header req) "Content-Type" = ["plain/text"] /\
    header_values (Request.Header req) "X-Callback-Url" = ["http://default-callback"].
Proof.
  assert (Hsafe : nil_safe (test_invoker (responder 200 hi) false
                              [WithInvokerAsyncCallbackURL "http://default-callback"])
                           (Some hi))
    by (intros _; discriminate).
  assert (Hcanon : canonical_keys
                     (caller_headers (Some {["Custom-Header" := ["value"]]})))
    by (by apply map_Forall_singleton).
  split; [exact Hsafe|]. split; [exact Hcanon|].
  exact (Content_Type_and_Callback_precedence
           (test_invoker (responder 200 hi) false
              [WithInvokerAsyncCallbackURL "http://default-callback"])
           0%nat "test-function" (Some hi) (Some {["Custom-Header" := ["value"]]})
           [WithInvokeContentType "plain/text"] idle Hsafe eq_refl Hcanon).
Defined.

(** Counterexample to C7 as stated. With no per-call override and no
    default on the invoker, the [Content-Type] and the [X-Callback-Url]
    the caller supplied go out; the claim has them absent. *)
Lemma caller_headers_present_against_claim :
  InvokeOptions.contentType (apply_opts InvokeOptions.zero []) = "" /\
  InvokeOptions.asyncCallbackURL (apply_opts InvokeOptions.zero []) = "" /\
  Invoker.ContentType (bare_invoker (responder 200 hi) []) = "" /\
  InvokerOptions.asyncCallbackURL
    (Invoker.opts (bare_invoker (responder 200 hi) [])) = "" /\
  (fun req => (header_values (Request.Header req) "Content-Type",
               header_values (Request.Header req) "X-Callback-Url")) <$>
    issued (Invoke (bare_invoker (responder 200 hi) [])
              0%nat "test-function" (Some hi)
              (Some (<["Content-Type" := ["text/xml"]]>
                       {["X-Callback-Url" := ["http://mine"]]}))
              [] idle)
  = [(["text/xml"], ["http://mine"])].
Proof. split_and!; vm_compute; reflexivity. Qed.

(** ** Invocation by topic *)

Section invoke_with_topic_facts.
Context `{GoRuntime}.

(** The guard: an empty payload or a nil topic map, with a payload
    pointer that is not nil, sends the one "no message to send" response
    and does nothing else. *)
Lemma InvokeWithTopic_guard (i : Invoker.t) (ctx : Context)
    (topicMap : option TopicMap) (topic : string) (m : bytes)
    (headers : option http_Header) (opts : list InvokeOptionFunc) (w : World) :
  m = [] \/ topicMap = None ->
  InvokeWithTopic i ctx topicMap topic (Some m) headers opts w =
    Ok (tt, {| Responses := Responses w ++ [no_message_response ctx];
               round_trips := round_trips w;
               now := now w |}).
Proof.
  intros Hguard. unfold InvokeWithTopic, bind at 1. cbn [deref ret].
  assert (bool_decide (length m = 0%nat) || is_nil topicMap = true) as ->.
  { destruct Hguard as [-> | ->]; [done|]. by rewrite orb_true_r. }
  done.
Qed.

(** Past the guard, the handlers [Match] returns are invoked one after
    the other: one response each, in that order. *)
Lemma InvokeWithTopic_invokes_each_match (i : Invoker.t) (ctx : Context)
    (t : TopicMap) (topic : string) (m : bytes)
    (headers : option http_Header) (opts : list InvokeOptionFunc) (w : World) :
  m <> [] ->
  exists w' rs,
    InvokeWithTopic i ctx (Some t) topic (Some m) headers opts w = Ok (tt, w') /\
    Responses w' = Responses w ++ rs /\
    InvokerResponse.Function <$> rs = Match t topic.
Proof.
  intros Hm. unfold InvokeWithTopic, bind at 1. cbn [deref ret].
  assert (bool_decide (length m = 0%nat) || is_nil (Some t) = false) as ->.
  { destruct m; [done|]. done. }
  unfold bind at 1. cbn [deref ret].
  generalize (Match t topic) as fs. intros fs. revert w.
  induction fs as [|f fs IH]; intros w.
  - exists w, []. cbn. by rewrite app_nil_r.
  - cbn [for_each]. unfold bind at 1. unfold bind at 1.
    destruct (Invoke_publishes_returned i ctx f (Some m) headers
                (opts ++ [WithInvokeTopic topic]) w) as (r & w1 & Hrun & Hresp & Hfn).
    { intros _. discriminate. }
    rewrite Hrun. cbn [ret].
    destruct (IH w1) as (w' & rs & Hrest & Hresp' & Hfns).
    exists w', (r :: rs). split; [exact Hrest|]. split.
    + rewrite Hresp', Hresp. by rewrite <- (assoc_L (++)).
    + by rewrite fmap_cons, Hfn, Hfns.
Qed.

(** A nil payload pointer is dereferenced before anything else. *)
Lemma InvokeWithTopic_nil_payload (i : Invoker.t) (ctx : Context)
    (topicMap : option TopicMap) (topic : string)
    (headers : option http_Header) (opts : list InvokeOptionFunc) (w : World) :
  InvokeWithTopic i ctx topicMap topic None headers opts w = Panic.
Proof. done. Qed.
End invoke_with_topic_facts.

(** C3, on the code. [Invoke] has no payload guard: on the empty payload
    of the package's "no message" test, and on a nil payload, it posts to
    the gateway and, the server answering, returns the status of the
    answer with a nil error. [InvokeWithTopic] sends the one "no message
    to send" response, without a request, on an empty payload, and panics
    on a nil one. *)
Theorem Invoke_without_payload_reaches_gateway :
  (fun r => (InvokerResponse.Status r, InvokerResponse.Error r)) <$>
    returned (Invoke (test_invoker (responder 404 hi) false []) 0%nat
                "test-function" (Some []) (Some ∅) [] idle)
  = Some (404, None) /\
  (fun req => (Request.URL req, Request.Body req)) <$>
    issued (Invoke (test_invoker (responder 404 hi) false []) 0%nat
              "test-function" (Some []) (Some ∅) [] idle)
  = [("http://127.0.0.1/function/test-function", [])] /\
  (fun r => (InvokerResponse.Status r, InvokerResponse.Error r)) <$>
    returned (Invoke (test_invoker (responder 404 hi) false []) 0%nat
                "test-function" None (Some ∅) [] idle)
  = Some (404, None) /\
  (fun req => (Request.URL req, Request.Body req)) <$>
    issued (Invoke (test_invoker (responder 404 hi) false []) 0%nat
              "test-function" None (Some ∅) [] idle)
  = [("http://127.0.0.1/function/test-function", [])] /\
  (fun r => InvokerResponse.Error r) <$>
    published (InvokeWithTopic (test_invoker (responder 404 hi) false []) 0%nat
                 (Some (Sync (NewTopicMap None) {["test-topic" := ["test-function"]]}))
                 "test-topic" (Some []) (Some ∅) [] idle)
  = [Some (errorString "no message to send")] /\
  issued (InvokeWithTopic (test_invoker (responder 404 hi) false []) 0%nat
            (Some (Sync (NewTopicMap None) {["test-topic" := ["test-function"]]}))
            "test-topic" (Some []) (Some ∅) [] idle) = [] /\
  InvokeWithTopic (test_invoker (responder 404 hi) false []) 0%nat
    (Some (Sync (NewTopicMap None) {["test-topic" := ["test-function"]]}))
    "test-topic" None (Some ∅) [] idle = Panic.
Proof. split_and!; vm_compute; reflexivity. Qed.

(** C6, on the code. With the request log enabled, [Invoke] on a nil
    payload panics where it formats the payload: it returns nothing and
    sends nothing. *)
Theorem Invoke_logged_nil_payload_panics `{GoRuntime}
    (gatewayURL : string) (client : http_Client) (contentType : string)
    (printResponse : bool) (invokerOpts : list InvokerOptionFunc)
    (ctx : Context) (functionName : string) (headers : option http_Header)
    (opts : list InvokeOptionFunc) (w : World) :
  Invoke (NewInvoker gatewayURL client contentType printResponse true invokerOpts)
    ctx functionName None headers opts w = Panic /\
  published (Invoke (NewInvoker gatewayURL client contentType printResponse true
                       invokerOpts)
               ctx functionName None headers opts w) = [].
Proof.
  rewrite Invoke_logged_nil_payload by done. done.
Qed.

(** C8, on the code. The identity header is set on the fresh request
    before the caller's headers are added to it, so an [X-Connector] the
    caller supplied goes out as a second value after ["connector-sdk"],
    and the first value, the one [Header.Get] reads, is ["connector-sdk"]. *)
Theorem X_Connector_set_beside_caller_value `{GoRuntime}
    (i : Invoker.t) (ctx : Context) (functionName : string) (m : bytes)
    (v : string) (opts : list InvokeOptionFunc) (w : World) :
  new_request_error (gateway_url i functionName) = None ->
  exists r w' req,
    Invoke i ctx functionName (Some m) (Some {["X-Connector" := [v]]}) opts w
      = Ok (r, w') /\
    round_trips w' = round_trips w ++ [req] /\
    header_values (Request.Header req) "X-Connector" = ["connector-sdk"; v] /\
    Header_Get (Request.Header req) "X-Connector" = "connector-sdk".
Proof.
  intros Hurl.
  assert (Hsafe : nil_safe i (Some m)) by (intros _; discriminate).
  assert (Hcanon : canonical_keys (caller_headers (Some {["X-Connector" := [v]]})))
    by (by apply map_Forall_singleton).
  destruct (Invoke_request_headers i ctx functionName (Some m)
              (Some {["X-Connector" := [v]]}) opts w Hsafe Hurl Hcanon)
    as (r & w' & req & Hrun & Hreq & Hval).
  exists r, w', req. split; [done|]. split; [done|].
  assert (Hx : header_values (Request.Header req) "X-Connector"
               = ["connector-sdk"; v]).
  { rewrite Hval, build_headers_X_Connector. cbn [caller_headers].
    rewrite decide_True by done. unfold header_values.
    by rewrite lookup_singleton_eq. }
  split; [done|]. unfold Header_Get. canon_literals. by rewrite Hx.
Qed.

(** The run of C8: a caller who supplied ["my-connector"]. *)
Lemma X_Connector_set_beside_caller_value_witness :
  new_request_error
    (gateway_url (test_invoker (responder 200 hi) false []) "test-function") = None /\
  exists r w' req,
    Invoke (test_invoker (responder 200 hi) false []) 0%nat "test-function"
      (Some hi) (Some {["X-Connector" := ["my-connector"]]}) [] idle
      = Ok (r, w') /\
    round_trips w' = [req] /\
    header_values (Request.Header req) "X-Connector"
      = ["connector-sdk"; "my-connector"] /\
    Header_Get (Request.Header req) "X-Connector" = "connector-sdk".
Proof.
  split; [reflexivity|].
  exact (X_Connector_set_beside_caller_value
           (test_invoker (responder 200 hi) false []) 0%nat "test-function"
           hi "my-connector" [] idle eq_refl).
Defined.

(** C10, on the code. [InvokeWithTopic] dereferences the payload pointer
    before it looks at the topic map: on a nil topic map and a nil payload
    it panics and sends nothing. *)
Theorem InvokeWithTopic_nil_map_nil_payload_panics `{GoRuntime}
    (i : Invoker.t) (ctx : Context) (topic : string)
    (headers : option http_Header) (opts : list InvokeOptionFunc) (w : World) :
  InvokeWithTopic i ctx None topic None headers opts w = Panic /\
  published (InvokeWithTopic i ctx None topic None headers opts w) = [].
Proof. done. Qed.

(** Witness of C1: no key of [{"payment": ["a.fn"]}] equals ["Payment"]. *)
Lemma Match_concatenates_matching_entries_witness :
  (forall k, is_Some (({["payment" := ["a.fn"]]} : gmap string (list string)) !! k) ->
             active_match (NewTopicMap None) "Payment" k = false) /\
  Match (Sync (NewTopicMap None) {["payment" := ["a.fn"]]}) "Payment" = [].
Proof.
  assert (Hnone : forall k,
            is_Some (({["payment" := ["a.fn"]]} : gmap string (list string)) !! k) ->
            active_match (NewTopicMap None) "Payment" k = false).
  { intros k [fs Hk]. apply lookup_singleton_Some in Hk as [<- _]. reflexivity. }
  split; [exact Hnone|].
  exact (proj2 (proj2 (proj2
           (Match_concatenates_matching_entries
              (NewTopicMap None) {["payment" := ["a.fn"]]} "Payment"))) Hnone).
Defined.

(** ** The lookup builder *)

Lemma length_pos_nonempty (s : string) :
  (0 <? String.length s)%nat = bool_decide (s ≠ "").
Proof. by destruct s. Qed.

Lemma string_app_cons_assoc (a : string) (c : ascii) (s : string) :
  (a +:+ String c "") +:+ s = a +:+ String c s.
Proof.
  induction a as [|x a IH]; [done|].
  change (String x ((a +:+ String c "") +:+ s) = String x (a +:+ String c s)).
  by f_equal.
Qed.

Lemma string_app_empty_r (a : string) : a +:+ "" = a.
Proof.
  induction a as [|x a IH]; [done|].
  change (String x (a +:+ "") = String x a). by f_equal.
Qed.

Lemma split_from_no_occurrence (sep cur s : string) :
  count_from sep 0 s = 0%nat -> split_from sep 0 cur s = [cur +:+ s].
Proof.
  revert cur. induction s as [|c s IH]; intros cur Hcount.
  - cbn. by rewrite string_app_empty_r.
  - cbn [split_from]. cbn [count_from] in Hcount.
    destruct (String.prefix sep (String c s)); [done|].
    rewrite IH by done. by rewrite string_app_cons_assoc.
Qed.

(** The test on [strings.Count] changes nothing: without an occurrence
    of the delimiter [strings.Split] returns the annotation whole. *)
Lemma topic_pieces_guard (topicDelimiter topicNames : string) :
  (if (0 <? String.length topicDelimiter)%nat &&
      (0 <? strings_Count topicNames topicDelimiter)%nat
   then strings_Split topicNames topicDelimiter
   else [topicNames]) = topic_pieces topicDelimiter topicNames.
Proof.
  unfold topic_pieces.
  destruct (0 <? String.length topicDelimiter)%nat; [|done]. cbn [andb].
  destruct (0 <? strings_Count topicNames topicDelimiter)%nat eqn:Hc; [done|].
  apply Nat.ltb_ge in Hc. unfold strings_Split, strings_Count in *.
  rewrite split_from_no_occurrence by lia. reflexivity.
Qed.

Section lookup_builder_facts.
Context `{GoStrings}.

Lemma appendServiceMap_blank (key function namespace : string)
    (sm : gmap string (list string)) :
  TrimSpace key = "" -> appendServiceMap key function namespace sm = sm.
Proof. intros Hk. unfold appendServiceMap. by rewrite Hk. Qed.

Lemma appendServiceMap_values (key function namespace : string)
    (sm : gmap string (list string)) (k : string) :
  header_values (appendServiceMap key function namespace sm) k =
  header_values sm k ++
  (if decide (TrimSpace key = k /\ k ≠ "")
   then [functionPath function namespace] else []).
Proof.
  unfold appendServiceMap. rewrite length_pos_nonempty.
  case_bool_decide as Hne.
  - unfold header_values at 1. rewrite lookup_insert.
    case_decide as Hk.
    + subst k. rewrite decide_True by done. cbn. f_equal.
      unfold header_values.
      destruct (sm !! TrimSpace key) eqn:E; by rewrite ?E, ?lookup_insert_eq.
    + rewrite decide_False by naive_solver. rewrite app_nil_r.
      unfold header_values.
      destruct (sm !! TrimSpace key) eqn:E; by rewrite ?lookup_insert_ne.
  - rewrite decide_False; [by rewrite app_nil_r|].
    intros [Hk1 Hk]. by subst k.
Qed.

Lemma appendServiceMap_dom (key function namespace : string)
    (sm : gmap string (list string)) (k : string) :
  is_Some (appendServiceMap key function namespace sm !! k) <->
  is_Some (sm !! k) \/ (TrimSpace key = k /\ k ≠ "").
Proof.
  unfold appendServiceMap. rewrite length_pos_nonempty.
  case_bool_decide as Hne; [|naive_solver].
  rewrite lookup_insert_is_Some.
  destruct (sm !! TrimSpace key) eqn:E.
  - destruct (decide (TrimSpace key = k)) as [<-|]; naive_solver.
  - rewrite lookup_insert_is_Some.
    destruct (decide (TrimSpace key = k)) as [<-|]; naive_solver.
Qed.
End lookup_builder_facts.

Section lookup_builder_loop.
Context `{GoStrings}.

(** One function: what its pieces add under a key. *)
Lemma append_pieces_values (pieces : list string) (function namespace : string)
    (sm : gmap string (list string)) (k : string) :
  header_values
    (fold_left (fun (serviceMap : gmap string (list string)) (topic : string) =>
                  appendServiceMap topic function namespace serviceMap)
               pieces sm) k =
  header_values sm k ++
  ((fun _ => functionPath function namespace) <$>
     filter (fun key => key = k)
       (filter (fun key => key ≠ "") (TrimSpace <$> pieces))).
Proof.
  revert sm. induction pieces as [|p ps IH]; intros sm; cbn [fold_left].
  - by rewrite app_nil_r.
  - rewrite IH, appendServiceMap_values, fmap_cons, <- (assoc_L (++)). f_equal.
    rewrite (filter_cons (fun key => key ≠ "")).
    destruct (decide (TrimSpace p ≠ "")) as [Hne|He].
    + rewrite (filter_cons (fun key => key = k)).
      destruct (decide (TrimSpace p = k)) as [Hk|Hk].
      * rewrite decide_True by (by subst k). done.
      * rewrite decide_False by naive_solver. done.
    + rewrite decide_False; [done|]. intros [Hk Hk']. subst k. done.
Qed.

Lemma append_pieces_dom (pieces : list string) (function namespace : string)
    (sm : gmap string (list string)) (k : string) :
  is_Some (fold_left (fun (serviceMap : gmap string (list string)) (topic : string) =>
                        appendServiceMap topic function namespace serviceMap)
                     pieces sm !! k) <->
  is_Some (sm !! k) \/
  k ∈ filter (fun key => key ≠ "") (TrimSpace <$> pieces).
Proof.
  revert sm. induction pieces as [|p ps IH]; intros sm; cbn [fold_left].
  - rewrite fmap_nil, filter_nil, elem_of_nil. naive_solver.
  - rewrite IH, appendServiceMap_dom, fmap_cons, !list_elem_of_filter, elem_of_cons.
    naive_solver.
Qed.

(** The step of [buildServiceMap] for one function, in terms of the
    topics it registers under. *)
Lemma buildServiceMap_step (function : FunctionStatus.t)
    (topicDelimiter namespace : string) (sm : gmap string (list string)) :
  buildServiceMap [function] topicDelimiter namespace sm =
  fold_left (fun (serviceMap : gmap string (list string)) (topic : string) =>
               appendServiceMap topic (FunctionStatus.Name function)
                 namespace serviceMap)
    (match FunctionStatus.Annotations function with
     | Some annotations =>
         match annotations !! "topic" with
         | Some topicNames => topic_pieces topicDelimiter topicNames
         | None => []
         end
     | None => []
     end) sm.
Proof.
  unfold buildServiceMap. cbn [fold_left].
  destruct (FunctionStatus.Annotations function) as [annotations|]; [|done].
  destruct (annotations !! "topic") as [topicNames|]; [|done].
  rewrite <- topic_pieces_guard.
  by destruct ((0 <? String.length topicDelimiter)%nat &&
               (0 <? strings_Count topicNames topicDelimiter)%nat).
Qed.

Lemma buildServiceMap_cons (function : FunctionStatus.t)
    (functions : list FunctionStatus.t) (topicDelimiter namespace : string)
    (sm : gmap string (list string)) :
  buildServiceMap (function :: functions) topicDelimiter namespace sm =
  buildServiceMap functions topicDelimiter namespace
    (buildServiceMap [function] topicDelimiter namespace sm).
Proof. done. Qed.

Lemma buildServiceMap_values (functions : list FunctionStatus.t)
    (topicDelimiter namespace : string) (sm : gmap string (list string))
    (k : string) :
  header_values (buildServiceMap functions topicDelimiter namespace sm) k =
  header_values sm k ++ handlers_added k topicDelimiter namespace functions.
Proof.
  revert sm. induction functions as [|fn fns IH]; intros sm.
  - unfold handlers_added. cbn. by rewrite app_nil_r.
  - rewrite buildServiceMap_cons, IH, buildServiceMap_step, append_pieces_values.
    rewrite <- (assoc_L (++)). f_equal.
    unfold handlers_added. rewrite fmap_cons. cbn [mjoin list_join]. f_equal.
    unfold registered_topics.
    destruct (FunctionStatus.Annotations fn) as [annotations|]; [|done].
    by destruct (annotations !! "topic").
Qed.

Lemma buildServiceMap_dom (functions : list FunctionStatus.t)
    (topicDelimiter namespace : string) (sm : gmap string (list string))
    (k : string) :
  is_Some (buildServiceMap functions topicDelimiter namespace sm !! k) <->
  is_Some (sm !! k) \/
  exists function, function ∈ functions /\
                   k ∈ registered_topics topicDelimiter function.
Proof.
  revert sm. induction functions as [|fn fns IH]; intros sm.
  - cbn. split; [by left|]. intros [?|(? & Hin & _)]; [done|].
    by apply elem_of_nil in Hin.
  - rewrite buildServiceMap_cons, IH, buildServiceMap_step, append_pieces_dom.
    assert (Hreg : registered_topics topicDelimiter fn =
                   filter (fun key => key ≠ "")
                     (TrimSpace <$>
                        match FunctionStatus.Annotations fn with
                        | Some annotations =>
                            match annotations !! "topic" with
                            | Some topicNames => topic_pieces topicDelimiter topicNames
                            | None => []
                            end
                        | None => []
                        end)).
    { unfold registered_topics.
      destruct (FunctionStatus.Annotations fn) as [annotations|]; [|done].
      by destruct (annotations !! "topic"). }
    rewrite <- Hreg. split.
    + intros [[?|?]|(f & Hf & Hk)]; [by left| |].
      * right. exists fn. split; [by left|done].
      * right. exists f. split; [by right|done].
    + intros [?|(f & Hf & Hk)]; [by left; left|].
      apply elem_of_cons in Hf as [->|Hf]; [by left; right|].
      right. by exists f.
Qed.
End lookup_builder_loop.

Section build_facts.
Context `{GoStrings}.

Lemma registered_topics_nonempty (topicDelimiter : string)
    (function : FunctionStatus.t) (k : string) :
  k ∈ registered_topics topicDelimiter function -> k ≠ "".
Proof.
  unfold registered_topics.
  destruct (FunctionStatus.Annotations function) as [annotations|];
    [|by intros ?%elem_of_nil].
  destruct (annotations !! "topic"); [|by intros ?%elem_of_nil].
  by intros [? _]%list_elem_of_filter.
Qed.

Lemma buildServiceMap_unregistered (function : FunctionStatus.t)
    (topicDelimiter namespace : string) (sm : gmap string (list string)) :
  registered_topics topicDelimiter function = [] ->
  buildServiceMap [function] topicDelimiter namespace sm = sm.
Proof.
  rewrite buildServiceMap_step. unfold registered_topics.
  destruct (FunctionStatus.Annotations function) as [annotations|]; [|done].
  destruct (annotations !! "topic") as [topicNames|]; [|done].
  generalize (topic_pieces topicDelimiter topicNames) as pieces.
  intros pieces. revert sm.
  induction pieces as [|p ps IH]; intros sm Hnone; [done|].
  rewrite fmap_cons, filter_cons in Hnone.
  destruct (decide (TrimSpace p ≠ "")) as [Hp|Hp]; [done|].
  apply dec_stable in Hp. cbn [fold_left].
  rewrite appendServiceMap_blank by done. by apply IH.
Qed.

(** The loop of [Build] when every listing succeeds. *)
Lemma build_namespaces_ok (s : FunctionLookupBuilder.t) (namespaces : list string)
    (listing : string -> list FunctionStatus.t) (sm : gmap string (list string)) :
  Forall (fun namespace =>
            GetFunctions (FunctionLookupBuilder.sdk s) namespace
            = inr (listing namespace)) namespaces ->
  exists m,
    build_namespaces s namespaces sm = (m, None) /\
    forall k,
      header_values m k =
        header_values sm k ++
        mjoin ((fun namespace =>
                  handlers_added k (FunctionLookupBuilder.TopicDelimiter s)
                    namespace (listing namespace)) <$> namespaces) /\
      (is_Some (m !! k) <->
       is_Some (sm !! k) \/
       exists namespace function,
         namespace ∈ namespaces /\ function ∈ listing namespace /\
         k ∈ registered_topics (FunctionLookupBuilder.TopicDelimiter s) function).
Proof.
  revert sm. induction namespaces as [|ns nss IH]; intros sm Hall.
  - exists sm. split; [done|]. intros k. cbn. rewrite app_nil_r. split; [done|].
    split; [by left|]. intros [?|(? & ? & Hin & _)]; [done|].
    by apply elem_of_nil in Hin.
  - apply Forall_cons in Hall as [Hns Hall]. cbn [build_namespaces].
    rewrite Hns.
    destruct (IH (buildServiceMap (listing ns)
                    (FunctionLookupBuilder.TopicDelimiter s) ns sm) Hall)
      as (m & Hrun & Hm).
    exists m. split; [done|]. intros k. destruct (Hm k) as [Hval Hdom].
    split.
    + rewrite Hval, buildServiceMap_values, fmap_cons.
      cbn [mjoin list_join]. by rewrite (assoc_L (++)).
    + rewrite Hdom, buildServiceMap_dom. split.
      * intros [[?|(fn & Hfn & Hk)]|(ns' & fn & Hns' & Hfn & Hk)].
        -- by left.
        -- right. exists ns, fn. split; [by left|done].
        -- right. exists ns', fn. split; [by right|done].
      * intros [?|(ns' & fn & Hns' & Hfn & Hk)]; [by left; left|].
        apply elem_of_cons in Hns' as [->|Hns'].
        -- left. right. by exists fn.
        -- right. by exists ns', fn.
Qed.

(** The loop of [Build] when it reports an error. *)
Lemma build_namespaces_error (s : FunctionLookupBuilder.t)
    (namespaces : list string) (sm m : gmap string (list string)) (e : error) :
  build_namespaces s namespaces sm = (m, Some e) ->
  m = ∅ /\
  exists namespace cause,
    namespace ∈ namespaces /\
    GetFunctions (FunctionLookupBuilder.sdk s) namespace = inl cause /\
    wraps e cause.
Proof.
  revert sm. induction namespaces as [|ns nss IH]; intros sm Hrun; [done|].
  cbn [build_namespaces] in Hrun.
  destruct (GetFunctions (FunctionLookupBuilder.sdk s) ns) as [cause|fns] eqn:Hns.
  - injection Hrun as <- <-. split; [done|]. exists ns, cause.
    split; [by left|]. split; [done|]. apply wraps_Errorf_w, wraps_refl.
  - destruct (IH _ Hrun) as (Hm & ns' & cause & Hin & Hget & Hw).
    split; [done|]. exists ns', cause. split; [by right|done].
Qed.

(** The namespaces [Build] goes through, or the error of their listing. *)
Lemma Build_unfold (s : FunctionLookupBuilder.t) :
  Build s =
  match (if bool_decide (FunctionLookupBuilder.Namespace s = "")
         then GetNamespaces (FunctionLookupBuilder.sdk s)
         else inr [FunctionLookupBuilder.Namespace s]) with
  | inl err => (∅, Some err)
  | inr namespaces =>
      build_namespaces s (if bool_decide (length namespaces = 0%nat)
                          then [""] else namespaces) ∅
  end.
Proof. done. Qed.
End build_facts.

(** X1. [buildServiceMap] only appends. Under every key the handlers
    that were there stay, in place, and one path is appended for every
    time a listed function registers that key, in the order of the
    listing; the keys of the result are the keys there were and the
    non-empty trimmed topics of the listed functions. *)
Theorem buildServiceMap_appends_registrations `{GoStrings}
    (functions : list FunctionStatus.t) (topicDelimiter namespace : string)
    (serviceMap : gmap string (list string)) (k : string) :
  header_values (buildServiceMap functions topicDelimiter namespace serviceMap) k =
    header_values serviceMap k ++
    handlers_added k topicDelimiter namespace functions /\
  (is_Some (buildServiceMap functions topicDelimiter namespace serviceMap !! k) <->
   is_Some (serviceMap !! k) \/
   exists function, function ∈ functions /\
                    k ∈ registered_topics topicDelimiter function) /\
  (forall path,
     path ∈ header_values
              (buildServiceMap functions topicDelimiter namespace serviceMap) k <->
     path ∈ header_values serviceMap k \/
     exists function,
       function ∈ functions /\
       k ∈ registered_topics topicDelimiter function /\
       path = functionPath (FunctionStatus.Name function) namespace).
Proof.
  split; [apply buildServiceMap_values|]. split; [apply buildServiceMap_dom|].
  intros path. rewrite buildServiceMap_values, elem_of_app.
  unfold handlers_added. rewrite list_elem_of_join.
  split; (intros [?|Hadd]; [by left|right]).
  - destruct Hadd as (paths & Hpath & Hpaths).
    apply list_elem_of_fmap in Hpaths as (fn & -> & Hfn).
    apply list_elem_of_fmap in Hpath as (k' & -> & Hk').
    apply list_elem_of_filter in Hk' as [-> Hk']. by exists fn.
  - destruct Hadd as (fn & Hfn & Hk & ->).
    eexists. split; [|apply list_elem_of_fmap; by exists fn].
    apply list_elem_of_fmap. exists k. split; [done|].
    by apply list_elem_of_filter.
Qed.

(** X2. Functions that register no topic (no annotations, no [topic]
    annotation, or an annotation with blank pieces only) leave the
    service map as it was. *)
Theorem buildServiceMap_skips_functions_without_topic `{GoStrings}
    (functions : list FunctionStatus.t) (topicDelimiter namespace : string)
    (serviceMap : gmap string (list string)) :
  Forall (fun function => registered_topics topicDelimiter function = [])
         functions ->
  buildServiceMap functions topicDelimiter namespace serviceMap = serviceMap.
Proof.
  revert serviceMap. induction functions as [|fn fns IH]; intros sm Hall; [done|].
  apply Forall_cons in Hall as [Hfn Hall].
  rewrite buildServiceMap_cons, buildServiceMap_unregistered by done.
  by apply IH.
Qed.

(** Witness of X2: a function without annotations and one annotated with
    delimiters and blanks only, as in the builder's "just delimiter"
    test. *)
Lemma buildServiceMap_skips_functions_without_topic_witness :
  Forall (fun function =>
            registered_topics (H:=trim_blanks) "," function = [])
    [ {| FunctionStatus.Name := "nodeinfo";
         FunctionStatus.Namespace := "openfaas-fn";
         FunctionStatus.Annotations := None |};
      {| FunctionStatus.Name := "echo";
         FunctionStatus.Namespace := "openfaas-fn";
         FunctionStatus.Annotations := Some {["topic" := " , ,"]} |} ] /\
  buildServiceMap (H:=trim_blanks)
    [ {| FunctionStatus.Name := "nodeinfo";
         FunctionStatus.Namespace := "openfaas-fn";
         FunctionStatus.Annotations := None |};
      {| FunctionStatus.Name := "echo";
         FunctionStatus.Namespace := "openfaas-fn";
         FunctionStatus.Annotations := Some {["topic" := " , ,"]} |} ]
    "," "openfaas-fn" {["payment" := ["pay.fn"]]}
  = {["payment" := ["pay.fn"]]}.
Proof.
  assert (Hall : Forall (fun function =>
                           registered_topics (H:=trim_blanks) "," function = [])
            [ {| FunctionStatus.Name := "nodeinfo";
                 FunctionStatus.Namespace := "openfaas-fn";
                 FunctionStatus.Annotations := None |};
              {| FunctionStatus.Name := "echo";
                 FunctionStatus.Namespace := "openfaas-fn";
                 FunctionStatus.Annotations := Some {["topic" := " , ,"]} |} ]).
  { repeat constructor. }
  split; [exact Hall|].
  exact (buildServiceMap_skips_functions_without_topic _ "," "openfaas-fn"
           {["payment" := ["pay.fn"]]} Hall).
Defined.

(** X3. The table [Build] returns has no entry under the empty topic:
    blank pieces of an annotation are dropped. *)
Theorem Build_never_registers_empty_topic `{GoStrings}
    (s : FunctionLookupBuilder.t) :
  (Build s).1 !! "" = None.
Proof.
  assert (Hloop : forall namespaces (sm : gmap string (list string)),
            sm !! "" = None -> (build_namespaces s namespaces sm).1 !! "" = None).
  { induction namespaces as [|ns nss IH]; intros sm Hsm; [done|].
    cbn [build_namespaces].
    destruct (GetFunctions (FunctionLookupBuilder.sdk s) ns) as [cause|fns]; [done|].
    apply IH. apply eq_None_not_Some. intros Hsome.
    apply buildServiceMap_dom in Hsome as [Hsome|(fn & _ & Hk)].
    - rewrite Hsm in Hsome. by destruct Hsome.
    - by apply registered_topics_nonempty in Hk. }
  rewrite Build_unfold.
  destruct (if bool_decide (FunctionLookupBuilder.Namespace s = "")
            then GetNamespaces (FunctionLookupBuilder.sdk s)
            else inr [FunctionLookupBuilder.Namespace s]) as [err|namespaces];
    [done|].
  by apply Hloop.
Qed.

(** X4. When [Build] reports an error it returns the empty table, never
    the part it had built; the error is the one of the namespace listing,
    or wraps the one of the function listing that failed. *)
Theorem Build_error_returns_empty_table `{GoStrings}
    (s : FunctionLookupBuilder.t) (e : error) :
  (Build s).2 = Some e ->
  (Build s).1 = ∅ /\
  ((FunctionLookupBuilder.Namespace s = "" /\
    GetNamespaces (FunctionLookupBuilder.sdk s) = inl e) \/
   exists namespace cause,
     GetFunctions (FunctionLookupBuilder.sdk s) namespace = inl cause /\
     wraps e cause).
Proof.
  rewrite Build_unfold. case_bool_decide as Hns.
  - destruct (GetNamespaces (FunctionLookupBuilder.sdk s)) as [err|namespaces].
    + cbn. intros [= ->]. split; [done|]. by left.
    + destruct (build_namespaces s _ ∅) as [m e'] eqn:Hrun. cbn. intros ->.
      apply build_namespaces_error in Hrun as (-> & ns & cause & _ & Hget & Hw).
      split; [done|]. right. by exists ns, cause.
  - destruct (build_namespaces s _ ∅) as [m e'] eqn:Hrun. cbn. intros ->.
    apply build_namespaces_error in Hrun as (-> & ns & cause & _ & Hget & Hw).
    split; [done|]. right. by exists ns, cause.
Qed.

(** Witness of X4: the second namespace cannot be listed. *)
Lemma Build_error_returns_empty_table_witness :
  (Build (H:=trim_blanks) (sample_builder "" failing_sdk)).2 =
    Some (Errorf_w "unable to get functions in: namespace2, error: "
            (errorString "connection refused")) /\
  (Build (H:=trim_blanks) (sample_builder "" failing_sdk)).1 = ∅ /\
  ((FunctionLookupBuilder.Namespace (sample_builder "" failing_sdk) = "" /\
    GetNamespaces (FunctionLookupBuilder.sdk (sample_builder "" failing_sdk)) =
      inl (Errorf_w "unable to get functions in: namespace2, error: "
             (errorString "connection refused"))) \/
   exists namespace cause,
     GetFunctions (FunctionLookupBuilder.sdk (sample_builder "" failing_sdk))
       namespace = inl cause /\
     wraps (Errorf_w "unable to get functions in: namespace2, error: "
              (errorString "connection refused")) cause).
Proof.
  assert (Herr : (Build (H:=trim_blanks) (sample_builder "" failing_sdk)).2 =
                 Some (Errorf_w "unable to get functions in: namespace2, error: "
                         (errorString "connection refused")))
    by (vm_compute; reflexivity).
  split; [exact Herr|].
  exact (Build_error_returns_empty_table (sample_builder "" failing_sdk) _ Herr).
Defined.

Lemma Build_one_namespace `{GoStrings}
    (s : FunctionLookupBuilder.t) (functions : list FunctionStatus.t) :
  FunctionLookupBuilder.Namespace s ≠ "" ->
  GetFunctions (FunctionLookupBuilder.sdk s) (FunctionLookupBuilder.Namespace s)
    = inr functions ->
  Build s =
    (buildServiceMap functions (FunctionLookupBuilder.TopicDelimiter s)
       (FunctionLookupBuilder.Namespace s) ∅, None).
Proof.
  intros Hns Hget. rewrite Build_unfold. rewrite bool_decide_false by done.
  cbn [length]. rewrite bool_decide_false by done.
  cbn [build_namespaces]. by rewrite Hget.
Qed.

(** X5. With a namespace configured, [Build] lists the functions of that
    namespace only (the namespaces of the gateway are not asked for): the
    table is what [buildServiceMap] makes of that listing, and every
    handler in it is a function name followed by a dot and the namespace. *)
Theorem Build_configured_namespace `{GoStrings}
    (s : FunctionLookupBuilder.t) (functions : list FunctionStatus.t) :
  FunctionLookupBuilder.Namespace s ≠ "" ->
  GetFunctions (FunctionLookupBuilder.sdk s) (FunctionLookupBuilder.Namespace s)
    = inr functions ->
  Build s =
    (buildServiceMap functions (FunctionLookupBuilder.TopicDelimiter s)
       (FunctionLookupBuilder.Namespace s) ∅, None) /\
  forall k path,
    path ∈ header_values (Build s).1 k ->
    exists function,
      function ∈ functions /\
      path = FunctionStatus.Name function +:+ "." +:+
             FunctionLookupBuilder.Namespace s.
Proof.
  intros Hns Hget.
  assert (Hrun : Build s =
            (buildServiceMap functions (FunctionLookupBuilder.TopicDelimiter s)
               (FunctionLookupBuilder.Namespace s) ∅, None)).
  { by apply Build_one_namespace. }
  split; [done|]. intros k path. rewrite Hrun. cbn [fst].
  rewrite buildServiceMap_values. unfold header_values at 1.
  rewrite lookup_empty. cbn [default app].
  unfold handlers_added. rewrite list_elem_of_join.
  intros (paths & Hpath & Hpaths).
  apply list_elem_of_fmap in Hpaths as (fn & -> & Hfn).
  apply list_elem_of_fmap in Hpath as (k' & -> & _).
  exists fn. split; [done|]. unfold functionPath.
  rewrite length_pos_nonempty, bool_decide_true by done. done.
Qed.

(** Witness of X5: only [openfaas-fn] is listed, on a gateway whose other
    namespace cannot be listed. *)
Lemma Build_configured_namespace_witness :
  FunctionLookupBuilder.Namespace (sample_builder "openfaas-fn" failing_sdk) ≠ "" /\
  GetFunctions (FunctionLookupBuilder.sdk (sample_builder "openfaas-fn" failing_sdk))
    (FunctionLookupBuilder.Namespace (sample_builder "openfaas-fn" failing_sdk))
    = inr (sample_functions "openfaas-fn") /\
  Build (H:=trim_blanks) (sample_builder "openfaas-fn" failing_sdk) =
    (buildServiceMap (H:=trim_blanks) (sample_functions "openfaas-fn") ","
       "openfaas-fn" ∅, None).
Proof.
  assert (Hns : FunctionLookupBuilder.Namespace
                  (sample_builder "openfaas-fn" failing_sdk) ≠ "") by done.
  split; [exact Hns|]. split; [reflexivity|].
  exact (proj1 (Build_configured_namespace (H:=trim_blanks)
                  (sample_builder "openfaas-fn" failing_sdk)
                  (sample_functions "openfaas-fn") Hns eq_refl)).
Defined.

(** X6. With no namespace configured and every listing succeeding,
    [Build] goes through the namespaces of the gateway in the order they
    are listed (through the unnamed namespace alone when none is listed),
    and a topic map synced with the table dispatches a topic, under the
    default matcher, to the handlers registered for it, namespace after
    namespace and, within a namespace, in the order of its functions. *)
Theorem Build_all_namespaces_then_Match `{GoStrings} `{GoRuntime}
    (s : FunctionLookupBuilder.t) (namespaces : list string)
    (listing : string -> list FunctionStatus.t) (T : string) :
  FunctionLookupBuilder.Namespace s = "" ->
  GetNamespaces (FunctionLookupBuilder.sdk s) = inr namespaces ->
  Forall (fun namespace =>
            GetFunctions (FunctionLookupBuilder.sdk s) namespace
            = inr (listing namespace))
         (if bool_decide (length namespaces = 0%nat) then [""] else namespaces) ->
  (Build s).2 = None /\
  Match (Sync (NewTopicMap None) (Build s).1) T =
    mjoin ((fun namespace =>
              handlers_added T (FunctionLookupBuilder.TopicDelimiter s)
                namespace (listing namespace))
           <$> (if bool_decide (length namespaces = 0%nat)
                then [""] else namespaces)).
Proof.
  intros Hns Hget Hall. rewrite Build_unfold.
  rewrite bool_decide_true by done. rewrite Hget.
  destruct (build_namespaces_ok s _ listing ∅ Hall) as (m & Hrun & Hm).
  rewrite Hrun. split; [done|]. cbn [fst].
  rewrite Match_equality by done. cbn [lookup_table Sync].
  destruct (Hm T) as [Hval _]. unfold header_values in Hval at 1.
  rewrite Hval. unfold header_values. by rewrite lookup_empty.
Qed.

(** Witness of X6: the two namespaces of the sample gateway. *)
Lemma Build_all_namespaces_then_Match_witness :
  FunctionLookupBuilder.Namespace (sample_builder "" sample_sdk) = "" /\
  Forall (fun namespace =>
            GetFunctions (FunctionLookupBuilder.sdk (sample_builder "" sample_sdk))
              namespace = inr (sample_functions namespace))
         ["openfaas-fn"; "namespace2"] /\
  (Build (H:=trim_blanks) (sample_builder "" sample_sdk)).2 = None /\
  Match (H:=plain_runtime)
    (Sync (NewTopicMap None)
       (Build (H:=trim_blanks) (sample_builder "" sample_sdk)).1) "topic1" =
    mjoin ((fun namespace =>
              handlers_added (H:=trim_blanks) "topic1" "," namespace
                (sample_functions namespace))
           <$> ["openfaas-fn"; "namespace2"]).
Proof.
  assert (Hall : Forall (fun namespace =>
            GetFunctions (FunctionLookupBuilder.sdk (sample_builder "" sample_sdk))
              namespace = inr (sample_functions namespace))
            ["openfaas-fn"; "namespace2"]) by (repeat constructor).
  split; [reflexivity|]. split; [exact Hall|].
  exact (Build_all_namespaces_then_Match (H:=trim_blanks) (H0:=plain_runtime)
           (sample_builder "" sample_sdk) ["openfaas-fn"; "namespace2"]
           sample_functions "topic1" eq_refl eq_refl Hall).
Defined.
(** ** More on one invocation *)

Lemma apply_opts_app (opts : list InvokeOptionFunc) (optFn : InvokeOptionFunc) :
  apply_opts InvokeOptions.zero (opts ++ [optFn]) =
  optFn (apply_opts InvokeOptions.zero opts).
Proof. unfold apply_opts. by rewrite fold_left_app. Qed.

(** Outside the four names [Invoke] writes, the header set is the
    caller's. *)
Lemma build_headers_lookup_other (i : Invoker.t) (o : InvokeOptions.t)
    (headers : option http_Header) (k : string) :
  k ≠ "User-Agent" -> k ≠ "X-Topic" -> k ≠ "X-Callback-Url" ->
  k ≠ "Content-Type" ->
  build_headers i o headers !! k = caller_headers headers !! k.
Proof.
  intros Hua Htopic Hcb Hct. build_headers_cases; unfold Header_Set;
    canon_literals; by rewrite ?lookup_insert_ne by done.
Qed.

Lemma build_headers_User_Agent (i : Invoker.t) (o : InvokeOptions.t)
    (headers : option http_Header) :
  header_values (build_headers i o headers) "User-Agent" =
    if bool_decide (InvokerOptions.userAgent (Invoker.opts i) ≠ "")
    then [InvokerOptions.userAgent (Invoker.opts i)]
    else header_values (caller_headers headers) "User-Agent".
Proof.
  build_headers_cases; rewrite ?header_values_Set; canon_literals;
    repeat case_decide; done.
Qed.

(** X7. An answer whose body can be read (or is nil) is surfaced as it
    came: the response carries its status code, its header set and the
    bytes of its body, together with a nil error, the topic of the call's
    options, the function, the context and the time the round trip took;
    it is the response sent on the channel, after one request. *)
Theorem Invoke_surfaces_the_answer `{GoRuntime}
    (i : Invoker.t) (ctx : Context) (functionName : string)
    (message : option bytes) (headers : option http_Header)
    (opts : list InvokeOptionFunc) (w : World) (res : Response.t) (took : Z) :
  nil_safe i message ->
  new_request_error (gateway_url i functionName) = None ->
  Invoker.Client i (round_trips w)
    (outbound_request i ctx functionName message headers opts) = (DoOk res, took) ->
  (forall cause, Response.Body res ≠ Some (ReadErr cause)) ->
  exists r w',
    Invoke i ctx functionName message headers opts w = Ok (r, w') /\
    Responses w' = Responses w ++ [r] /\
    round_trips w' =
      round_trips w ++ [outbound_request i ctx functionName message headers opts] /\
    r = {| InvokerResponse.Context := ctx;
           InvokerResponse.Body :=
             match Response.Body res with
             | Some (ReadOk bytesOut) => Some bytesOut
             | _ => None
             end;
           InvokerResponse.Header := Some (Response.Header res);
           InvokerResponse.Status := Response.StatusCode res;
           InvokerResponse.Error := None;
           InvokerResponse.Topic :=
             InvokeOptions.topic (apply_opts InvokeOptions.zero opts);
           InvokerResponse.Function := functionName;
           InvokerResponse.Duration := took |}.
Proof.
  intros Hsafe Hurl Hdo Hbody.
  assert (Hlog : (if Invoker.PrintRequest i
                  then (let* _ := deref message in ret tt)
                  else ret tt) w = Ok (tt, w)).
  { destruct (Invoker.PrintRequest i) eqn:Hprint; [|done].
    destruct message; [done|]. by destruct (Hsafe Hprint). }
  unfold Invoke, bind at 1. rewrite Hlog.
  unfold bind at 1. unfold time_Now.
  unfold bind at 1. unfold invoke.
  fold (gateway_url i functionName). rewrite Hurl.
  change (bool_decide (Header_Get ∅ "X-Connector" = "")) with true.
  cbn iota.
  unfold bind at 1. unfold Client_Do.
  fold (outbound_request i ctx functionName message headers opts).
  rewrite Hdo.
  destruct (Response.Body res) as [[bytesOut|cause]|] eqn:Hb.
  - eexists _, _. split; [reflexivity|]. split_and!; [done|done|].
    f_equal. cbn. lia.
  - by destruct (Hbody cause).
  - eexists _, _. split; [reflexivity|]. split_and!; [done|done|].
    f_equal. cbn. lia.
Qed.

(** Witness of X7: the server of the end-to-end scenario answers 200. *)
Lemma Invoke_surfaces_the_answer_witness :
  nil_safe (test_invoker (responder 200 hi) false []) (Some hi) /\
  exists r w',
    Invoke (test_invoker (responder 200 hi) false []) 0%nat "proc.fn1"
      (Some hi) None [WithInvokeTopic "orders"] idle = Ok (r, w') /\
    Responses w' = [r] /\
    round_trips w' =
      [outbound_request (test_invoker (responder 200 hi) false []) 0%nat
         "proc.fn1" (Some hi) None [WithInvokeTopic "orders"]] /\
    r = {| InvokerResponse.Context := 0%nat;
           InvokerResponse.Body := Some hi;
           InvokerResponse.Header := Some ∅;
           InvokerResponse.Status := 200;
           InvokerResponse.Error := None;
           InvokerResponse.Topic := "orders";
           InvokerResponse.Function := "proc.fn1";
           InvokerResponse.Duration := 1 |}.
Proof.
  assert (Hsafe : nil_safe (test_invoker (responder 200 hi) false []) (Some hi))
    by (intros _; discriminate).
  split; [exact Hsafe|].
  exact (Invoke_surfaces_the_answer (H:=plain_runtime)
           (test_invoker (responder 200 hi) false []) 0%nat "proc.fn1"
           (Some hi) None [WithInvokeTopic "orders"] idle
           {| Response.StatusCode := 200; Response.Header := ∅;
              Response.Body := Some (ReadOk hi) |} 1
           Hsafe eq_refl eq_refl ltac:(discriminate)).
Defined.

(** X8. A response that carries an error carries nothing of an answer
    and not the topic either: status 503, no body, no header set, an
    empty topic whatever the options say, and the function and the
    context of the call. *)
Theorem Invoke_error_response_is_bare `{GoRuntime}
    (i : Invoker.t) (ctx : Context) (functionName : string)
    (message : option bytes) (headers : option http_Header)
    (opts : list InvokeOptionFunc) (w : World) (r : InvokerResponse.t) (w' : World) :
  Invoke i ctx functionName message headers opts w = Ok (r, w') ->
  InvokerResponse.Error r ≠ None ->
  InvokerResponse.Topic r = "" /\ InvokerResponse.Header r = None /\
  InvokerResponse.Body r = None /\
  InvokerResponse.Status r = StatusServiceUnavailable /\
  InvokerResponse.Function r = functionName /\
  InvokerResponse.Context r = ctx.
Proof.
  unfold Invoke, bind at 1.
  destruct ((if Invoker.PrintRequest i
             then (let* _ := deref message in ret tt)
             else ret tt) w) as [[[] w0]|]; [|done].
  unfold bind at 1. unfold time_Now.
  unfold bind at 1. unfold invoke.
  destruct (new_request_error _) as [cause|].
  - cbn. intros [= <- <-]. done.
  - change (bool_decide (Header_Get ∅ "X-Connector" = "")) with true.
    cbn iota. unfold bind at 1. unfold Client_Do.
    destruct (Invoker.Client i _ _) as [[cause|res] took].
    + cbn. intros [= <- <-]. done.
    + destruct (Response.Body res) as [[bytesOut|cause]|];
        cbn; intros [= <- <-]; done.
Qed.

(** Witness of X8: the unreachable host, on a call that names a topic. *)
Lemma Invoke_error_response_is_bare_witness :
  exists r w',
    Invoke (test_invoker unreachable false [WithInvokerSendTopic true]) 7%nat
      "test-function" (Some hi) None [WithInvokeTopic "orders"] idle
      = Ok (r, w') /\
    InvokerResponse.Error r ≠ None /\
    InvokerResponse.Topic r = "" /\ InvokerResponse.Header r = None /\
    InvokerResponse.Body r = None /\
    InvokerResponse.Status r = StatusServiceUnavailable /\
    InvokerResponse.Function r = "test-function" /\
    InvokerResponse.Context r = 7%nat.
Proof.
  eexists _, _. split; [vm_compute; reflexivity|]. split; [discriminate|].
  eapply (Invoke_error_response_is_bare (H:=plain_runtime)
            (test_invoker unreachable false [WithInvokerSendTopic true]) 7%nat
            "test-function" (Some hi) None [WithInvokeTopic "orders"] idle);
    [vm_compute; reflexivity|discriminate].
Defined.

(** X9. The request of a call: a POST to the gateway URL followed by a
    slash and the function name, with the payload as its body (an empty
    body for a nil payload) and the context of the call; and, for a
    caller's header set in canonical form, every header outside the five
    names the invoker manages goes out with the values the caller gave
    it. *)
Theorem Invoke_request_line_and_forwarded_headers `{GoRuntime}
    (i : Invoker.t) (ctx : Context) (functionName : string)
    (message : option bytes) (headers : option http_Header)
    (opts : list InvokeOptionFunc) (w : World) :
  nil_safe i message ->
  new_request_error (gateway_url i functionName) = None ->
  canonical_keys (caller_headers headers) ->
  exists r w' req,
    Invoke i ctx functionName message headers opts w = Ok (r, w') /\
    round_trips w' = round_trips w ++ [req] /\
    Request.Method req = "POST" /\
    Request.URL req = Invoker.GatewayURL i +:+ "/" +:+ functionName /\
    Request.Body req = default [] message /\
    Request.Ctx req = ctx /\
    forall K,
      K ≠ "User-Agent" -> K ≠ "X-Topic" -> K ≠ "X-Callback-Url" ->
      K ≠ "Content-Type" -> K ≠ "X-Connector" ->
      header_values (Request.Header req) K =
      header_values (caller_headers headers) K.
Proof.
  intros Hsafe Hurl Hcanon.
  destruct (Invoke_round_trip i ctx functionName message headers opts w
              Hsafe Hurl) as (r & Hrun & _).
  eexists _, _, _. split; [exact Hrun|]. split; [done|].
  split_and!; try done; try by destruct message.
  intros K Hua Htopic Hcb Hct Hconn.
  rewrite outbound_header_values by done.
  rewrite decide_False by done. cbn [app].
  unfold header_values. by rewrite build_headers_lookup_other.
Qed.

(** Witness of X9: the custom header of the package's topic test. *)
Lemma Invoke_request_line_and_forwarded_headers_witness :
  nil_safe (test_invoker (responder 200 hi) false []) (Some hi) /\
  canonical_keys (caller_headers (Some {["Custom-Header" := ["value"]]})) /\
  exists r w' req,
    Invoke (test_invoker (responder 200 hi) false []) 0%nat "test-function1"
      (Some hi) (Some {["Custom-Header" := ["value"]]}) [] idle = Ok (r, w') /\
    round_trips w' = [req] /\
    Request.Method req = "POST" /\
    Request.URL req = "http://127.0.0.1/function/test-function1" /\
    Request.Body req = hi /\
    Request.Ctx req = 0%nat /\
    forall K,
      K ≠ "User-Agent" -> K ≠ "X-Topic" -> K ≠ "X-Callback-Url" ->
      K ≠ "Content-Type" -> K ≠ "X-Connector" ->
      header_values (Request.Header req) K =
      header_values (caller_headers (Some {["Custom-Header" := ["value"]]})) K.
Proof.
  assert (Hsafe : nil_safe (test_invoker (responder 200 hi) false []) (Some hi))
    by (intros _; discriminate).
  assert (Hcanon : canonical_keys
                     (caller_headers (Some {["Custom-Header" := ["value"]]})))
    by (by apply map_Forall_singleton).
  split; [exact Hsafe|]. split; [exact Hcanon|].
  exact (Invoke_request_line_and_forwarded_headers (H:=plain_runtime)
           (test_invoker (responder 200 hi) false []) 0%nat "test-function1"
           (Some hi) (Some {["Custom-Header" := ["value"]]}) [] idle
           Hsafe eq_refl Hcanon).
Defined.

(** X10. [User-Agent]: the user agent of the invoker, when it has one,
    replaces whatever the caller supplied under that name; an invoker
    without a user agent sends the caller's. *)
Theorem User_Agent_of_invoker_wins `{GoRuntime}
    (i : Invoker.t) (ctx : Context) (functionName : string)
    (message : option bytes) (headers : option http_Header)
    (opts : list InvokeOptionFunc) (w : World) :
  nil_safe i message ->
  new_request_error (gateway_url i functionName) = None ->
  canonical_keys (caller_headers headers) ->
  exists r w' req,
    Invoke i ctx functionName message headers opts w = Ok (r, w') /\
    round_trips w' = round_trips w ++ [req] /\
    header_values (Request.Header req) "User-Agent" =
      if bool_decide (InvokerOptions.userAgent (Invoker.opts i) ≠ "")
      then [InvokerOptions.userAgent (Invoker.opts i)]
      else header_values (caller_headers headers) "User-Agent".
Proof.
  intros Hsafe Hurl Hcanon.
  destruct (Invoke_request_headers i ctx functionName message headers opts w
              Hsafe Hurl Hcanon) as (r & w' & req & Hrun & Hreq & Hval).
  exists r, w', req. split; [done|]. split; [done|].
  rewrite Hval, build_headers_User_Agent. by rewrite decide_False by done.
Qed.

(** Witness of X10: a configured user agent over the caller's. *)
Lemma User_Agent_of_invoker_wins_witness :
  nil_safe (test_invoker (responder 200 hi) false
              [WithInvokerUserAgent "acme/kafka-connector"]) (Some hi) /\
  canonical_keys (caller_headers (Some {["User-Agent" := ["curl/8"]]})) /\
  exists r w' req,
    Invoke (test_invoker (responder 200 hi) false
              [WithInvokerUserAgent "acme/kafka-connector"])
      0%nat "test-function" (Some hi) (Some {["User-Agent" := ["curl/8"]]}) []
      idle = Ok (r, w') /\
    round_trips w' = [req] /\
    header_values (Request.Header req) "User-Agent" = ["acme/kafka-connector"].
Proof.
  assert (Hsafe : nil_safe (test_invoker (responder 200 hi) false
                              [WithInvokerUserAgent "acme/kafka-connector"])
                    (Some hi))
    by (intros _; discriminate).
  assert (Hcanon : canonical_keys
                     (caller_headers (Some {["User-Agent" := ["curl/8"]]})))
    by (by apply map_Forall_singleton).
  split; [exact Hsafe|]. split; [exact Hcanon|].
  exact (User_Agent_of_invoker_wins (H:=plain_runtime)
           (test_invoker (responder 200 hi) false
              [WithInvokerUserAgent "acme/kafka-connector"])
           0%nat "test-function" (Some hi) (Some {["User-Agent" := ["curl/8"]]}) []
           idle Hsafe eq_refl Hcanon).
Defined.



(** X12. No value of a caller's header is lost, whatever the form of its
    key: a value the caller supplied under a key other than the four
    names [Invoke] writes goes out under the canonical form of that key. *)
Theorem caller_header_values_are_kept `{GoRuntime}
    (i : Invoker.t) (ctx : Context) (functionName : string)
    (message : option bytes) (headers : http_Header)
    (opts : list InvokeOptionFunc) (w : World)
    (k : string) (values : list string) (value : string) :
  nil_safe i message ->
  new_request_error (gateway_url i functionName) = None ->
  headers !! k = Some values ->
  value ∈ values ->
  k ≠ "User-Agent" -> k ≠ "X-Topic" -> k ≠ "X-Callback-Url" ->
  k ≠ "Content-Type" ->
  exists r w' req,
    Invoke i ctx functionName message (Some headers) opts w = Ok (r, w') /\
    round_trips w' = round_trips w ++ [req] /\
    value ∈ header_values (Request.Header req) (CanonicalHeaderKey k).
Proof.
  intros Hsafe Hurl Hk Hvalue Hua Htopic Hcb Hct.
  destruct (Invoke_round_trip i ctx functionName message (Some headers) opts w
              Hsafe Hurl) as (r & Hrun & _).
  eexists _, _, _. split; [exact Hrun|]. split; [done|].
  cbn [outbound_request Request.Header].
  rewrite header_values_add_all, elem_of_app. right.
  apply list_elem_of_join. exists values. split; [done|].
  apply list_elem_of_fmap. exists (k, values). split; [done|].
  apply list_elem_of_filter. split; [done|].
  apply range_elem_of. by rewrite build_headers_lookup_other.
Qed.

(** Witness of X12: a header the caller wrote in lower case. *)
Lemma caller_header_values_are_kept_witness :
  nil_safe (test_invoker (responder 200 hi) false []) (Some hi) /\
  ({["x-served-by" := ["cmd/tester"]]} : http_Header) !! "x-served-by"
    = Some ["cmd/tester"] /\
  exists r w' req,
    Invoke (test_invoker (responder 200 hi) false []) 0%nat "test-function"
      (Some hi) (Some {["x-served-by" := ["cmd/tester"]]}) [] idle = Ok (r, w') /\
    round_trips w' = [req] /\
    "cmd/tester" ∈ header_values (Request.Header req) "X-Served-By".
Proof.
  assert (Hsafe : nil_safe (test_invoker (responder 200 hi) false []) (Some hi))
    by (intros _; discriminate).
  split; [exact Hsafe|]. split; [reflexivity|].
  exact (caller_header_values_are_kept (H:=plain_runtime)
           (test_invoker (responder 200 hi) false []) 0%nat "test-function"
           (Some hi) {["x-served-by" := ["cmd/tester"]]} [] idle
           "x-served-by" ["cmd/tester"] "cmd/tester"
           Hsafe eq_refl eq_refl ltac:(by left)
           ltac:(discriminate) ltac:(discriminate) ltac:(discriminate)
           ltac:(discriminate)).
Defined.

(** ** More on invocation by topic *)

Section invoke_with_topic_more.
Context `{GoRuntime}.

Lemma Invoke_success_topic (i : Invoker.t) (ctx : Context) (functionName : string)
    (message : option bytes) (headers : option http_Header)
    (opts : list InvokeOptionFunc) (w : World) (r : InvokerResponse.t) (w' : World) :
  Invoke i ctx functionName message headers opts w = Ok (r, w') ->
  InvokerResponse.Error r = None ->
  InvokerResponse.Topic r = InvokeOptions.topic (apply_opts InvokeOptions.zero opts).
Proof.
  unfold Invoke, bind at 1.
  destruct ((if Invoker.PrintRequest i
             then (let* _ := deref message in ret tt)
             else ret tt) w) as [[[] w0]|]; [|done].
  unfold bind at 1. unfold time_Now.
  unfold bind at 1. unfold invoke.
  destruct (new_request_error _) as [cause|].
  - cbn. intros [= <- <-]. done.
  - change (bool_decide (Header_Get ∅ "X-Connector" = "")) with true.
    cbn iota. unfold bind at 1. unfold Client_Do.
    destruct (Invoker.Client i _ _) as [[cause|res] took].
    + cbn. intros [= <- <-]. done.
    + destruct (Response.Body res) as [[bytesOut|cause]|];
        cbn; intros [= <- <-]; done.
Qed.

(** The loop of [InvokeWithTopic] when every URL can be made into a
    request: one request and one response per function, in order. *)
Lemma for_each_Invoke (i : Invoker.t) (ctx : Context) (m : bytes)
    (headers : option http_Header) (opts : list InvokeOptionFunc)
    (functions : list string) (w : World) :
  Forall (fun f => new_request_error (gateway_url i f) = None) functions ->
  exists w' rs,
    for_each functions
      (fun matchedFunction =>
         Invoke i ctx matchedFunction (Some m) headers opts ;; ret tt) w
    = Ok (tt, w') /\
    Responses w' = Responses w ++ rs /\
    InvokerResponse.Function <$> rs = functions /\
    Forall (fun r => InvokerResponse.Error r = None ->
                     InvokerResponse.Topic r =
                       InvokeOptions.topic (apply_opts InvokeOptions.zero opts)) rs /\
    round_trips w' =
      round_trips w ++
      ((fun f => outbound_request i ctx f (Some m) headers opts) <$> functions).
Proof.
  revert w. induction functions as [|f fs IH]; intros w Hall.
  - exists w, []. cbn. by rewrite !app_nil_r.
  - apply Forall_cons in Hall as [Hf Hall].
    cbn [for_each]. unfold bind at 1. unfold bind at 1.
    destruct (Invoke_round_trip i ctx f (Some m) headers opts w)
      as (r & Hrun & Hfn & _); [intros _; discriminate|done|].
    rewrite Hrun. cbn [ret].
    match goal with
    | |- context [for_each fs _ ?w1] =>
        destruct (IH w1 Hall) as (w' & rs & Hrest & Hresp & Hfns & Htopics & Hreqs)
    end.
    exists w', (r :: rs). split; [exact Hrest|]. split_and!.
    + rewrite Hresp. cbn. by rewrite <- (assoc_L (++)).
    + by rewrite fmap_cons, Hfn, Hfns.
    + constructor; [|done]. intros Herr.
      by eapply Invoke_success_topic.
    + rewrite Hreqs. cbn. by rewrite <- (assoc_L (++)).
Qed.
(** Past the guard: the run of [InvokeWithTopic] over the handlers
    [Match] returns. *)
Lemma InvokeWithTopic_run (i : Invoker.t) (ctx : Context) (t : TopicMap)
    (topic : string) (m : bytes) (headers : option http_Header)
    (opts : list InvokeOptionFunc) (w : World) :
  m ≠ [] ->
  Forall (fun f => new_request_error (gateway_url i f) = None) (Match t topic) ->
  exists w' rs reqs,
    InvokeWithTopic i ctx (Some t) topic (Some m) headers opts w = Ok (tt, w') /\
    Responses w' = Responses w ++ rs /\
    InvokerResponse.Function <$> rs = Match t topic /\
    round_trips w' = round_trips w ++ reqs /\
    Request.URL <$> reqs =
      (fun f => Invoker.GatewayURL i +:+ "/" +:+ f) <$> Match t topic /\
    Forall (fun req => Request.Method req = "POST" /\ Request.Body req = m) reqs.
Proof.
  intros Hm Hall. unfold InvokeWithTopic, bind at 1. cbn [deref ret].
  assert (bool_decide (length m = 0%nat) || is_nil (Some t) = false) as ->.
  { by destruct m. }
  unfold bind at 1. cbn [deref ret].
  destruct (for_each_Invoke i ctx m headers (opts ++ [WithInvokeTopic topic])
              (Match t topic) w Hall)
    as (w' & rs & Hrun & Hresp & Hfns & _ & Hreqs).
  eexists w', rs, _. split; [exact Hrun|]. split_and!; [done|done|exact Hreqs| |].
  - rewrite <- list_fmap_compose. by apply list_fmap_ext.
  - apply Forall_fmap. by apply Forall_true.
Qed.
End invoke_with_topic_more.

(** X13. With a topic map, a payload that is not empty and URLs that
    parse, [InvokeWithTopic] makes one POST per handler [Match] returns,
    in that order, each to the gateway URL followed by the handler and
    each with the payload as its body, and sends one response per
    handler, in the same order. *)
Theorem InvokeWithTopic_posts_once_per_match `{GoRuntime}
    (i : Invoker.t) (ctx : Context) (t : TopicMap) (topic : string) (m : bytes)
    (headers : option http_Header) (opts : list InvokeOptionFunc) (w : World) :
  m ≠ [] ->
  Forall (fun f => new_request_error (gateway_url i f) = None) (Match t topic) ->
  exists w' rs reqs,
    InvokeWithTopic i ctx (Some t) topic (Some m) headers opts w = Ok (tt, w') /\
    Responses w' = Responses w ++ rs /\
    InvokerResponse.Function <$> rs = Match t topic /\
    round_trips w' = round_trips w ++ reqs /\
    Request.URL <$> reqs =
      (fun f => Invoker.GatewayURL i +:+ "/" +:+ f) <$> Match t topic /\
    Forall (fun req => Request.Method req = "POST" /\ Request.Body req = m) reqs.
Proof. apply InvokeWithTopic_run. Qed.

(** Witness of X13: the multi-handler scenario, table [{"t": ["a", "b"]}]. *)
Lemma InvokeWithTopic_posts_once_per_match_witness :
  hi ≠ [] /\
  exists w' rs reqs,
    InvokeWithTopic (H:=plain_runtime) (test_invoker (responder 200 hi) false [])
      0%nat (Some (Sync (NewTopicMap None) {["t" := ["a"; "b"]]})) "t"
      (Some hi) None [] idle = Ok (tt, w') /\
    Responses w' = rs /\
    InvokerResponse.Function <$> rs =
      Match (H:=plain_runtime) (Sync (NewTopicMap None) {["t" := ["a"; "b"]]}) "t" /\
    round_trips w' = reqs /\
    Request.URL <$> reqs =
      (fun f => "http://127.0.0.1/function" +:+ "/" +:+ f) <$>
        Match (H:=plain_runtime) (Sync (NewTopicMap None) {["t" := ["a"; "b"]]}) "t" /\
    Forall (fun req => Request.Method req = "POST" /\ Request.Body req = hi) reqs.
Proof.
  assert (Hm : hi ≠ []) by discriminate.
  split; [exact Hm|].
  exact (InvokeWithTopic_posts_once_per_match (H:=plain_runtime)
           (test_invoker (responder 200 hi) false []) 0%nat
           (Sync (NewTopicMap None) {["t" := ["a"; "b"]]}) "t" hi None [] idle
           Hm ltac:(by apply Forall_true)).
Defined.

(** X14. A topic no key matches is dropped in silence: with a payload
    that is not empty, [InvokeWithTopic] sends no response, not even an
    error, and issues no request. *)
Theorem InvokeWithTopic_without_match_is_silent `{GoRuntime}
    (i : Invoker.t) (ctx : Context) (t : TopicMap) (topic : string) (m : bytes)
    (headers : option http_Header) (opts : list InvokeOptionFunc) (w : World) :
  m ≠ [] ->
  Match t topic = [] ->
  InvokeWithTopic i ctx (Some t) topic (Some m) headers opts w = Ok (tt, w).
Proof.
  intros Hm Hnone. unfold InvokeWithTopic, bind at 1. cbn [deref ret].
  assert (bool_decide (length m = 0%nat) || is_nil (Some t) = false) as ->.
  { by destruct m. }
  unfold bind at 1. cbn [deref ret]. by rewrite Hnone.
Qed.

(** Witness of X14: the default matcher is case sensitive. *)
Lemma InvokeWithTopic_without_match_is_silent_witness :
  hi ≠ [] /\
  Match (H:=plain_runtime)
    (Sync (NewTopicMap None) {["payment" := ["a.fn"]]}) "Payment" = [] /\
  InvokeWithTopic (H:=plain_runtime) (test_invoker (responder 200 hi) false [])
    0%nat (Some (Sync (NewTopicMap None) {["payment" := ["a.fn"]]})) "Payment"
    (Some hi) None [] idle = Ok (tt, idle).
Proof.
  assert (Hm : hi ≠ []) by discriminate.
  assert (Hnone : Match (H:=plain_runtime)
                    (Sync (NewTopicMap None) {["payment" := ["a.fn"]]}) "Payment"
                  = []) by (vm_compute; reflexivity).
  split; [exact Hm|]. split; [exact Hnone|].
  exact (InvokeWithTopic_without_match_is_silent (H:=plain_runtime)
           (test_invoker (responder 200 hi) false []) 0%nat
           (Sync (NewTopicMap None) {["payment" := ["a.fn"]]}) "Payment" hi None []
           idle Hm Hnone).
Defined.

(** X15. The topic [InvokeWithTopic] is called with is the topic of every
    invocation it makes, also when the caller's options name another one:
    with topic forwarding on, every request carries [X-Topic] with that
    topic as its only value, and every response without an error carries
    it as its topic. *)
Theorem InvokeWithTopic_topic_overrides_options `{GoRuntime}
    (i : Invoker.t) (ctx : Context) (t : TopicMap) (topic : string) (m : bytes)
    (headers : option http_Header) (opts : list InvokeOptionFunc) (w : World) :
  m ≠ [] ->
  Forall (fun f => new_request_error (gateway_url i f) = None) (Match t topic) ->
  canonical_keys (caller_headers headers) ->
  InvokerOptions.sendTopic (Invoker.opts i) = true ->
  exists w' rs reqs,
    InvokeWithTopic i ctx (Some t) topic (Some m) headers opts w = Ok (tt, w') /\
    Responses w' = Responses w ++ rs /\
    round_trips w' = round_trips w ++ reqs /\
    Forall (fun req => header_values (Request.Header req) "X-Topic" = [topic]) reqs /\
    Forall (fun r => InvokerResponse.Error r = None ->
                     InvokerResponse.Topic r = topic) rs.
Proof.
  intros Hm Hall Hcanon Hsend. unfold InvokeWithTopic, bind at 1. cbn [deref ret].
  assert (bool_decide (length m = 0%nat) || is_nil (Some t) = false) as ->.
  { by destruct m. }
  unfold bind at 1. cbn [deref ret].
  destruct (for_each_Invoke i ctx m headers (opts ++ [WithInvokeTopic topic])
              (Match t topic) w Hall)
    as (w' & rs & Hrun & Hresp & _ & Htopics & Hreqs).
  eexists w', rs, _. split; [exact Hrun|]. split_and!; [done|exact Hreqs| |].
  - apply Forall_fmap, Forall_true. intros f. cbn [compose].
    rewrite outbound_header_values by done.
    rewrite decide_False by done. cbn [app].
    rewrite build_headers_X_Topic, Hsend, apply_opts_app. done.
  - eapply Forall_impl; [exact Htopics|]. intros r Hr Herr.
    rewrite (Hr Herr), apply_opts_app. done.
Qed.

(** Witness of X15: the caller's options name another topic. *)
Lemma InvokeWithTopic_topic_overrides_options_witness :
  hi ≠ [] /\
  canonical_keys (caller_headers None) /\
  exists w' rs reqs,
    InvokeWithTopic (H:=plain_runtime)
      (test_invoker (responder 200 hi) false [WithInvokerSendTopic true])
      0%nat (Some (Sync (NewTopicMap None) {["orders" := ["proc.fn1"]]})) "orders"
      (Some hi) None [WithInvokeTopic "other"] idle = Ok (tt, w') /\
    Responses w' = rs /\
    round_trips w' = reqs /\
    Forall (fun req => header_values (Request.Header req) "X-Topic" = ["orders"])
           reqs /\
    Forall (fun r => InvokerResponse.Error r = None ->
                     InvokerResponse.Topic r = "orders") rs.
Proof.
  assert (Hm : hi ≠ []) by discriminate.
  assert (Hcanon : canonical_keys (caller_headers None)) by apply map_Forall_empty.
  split; [exact Hm|]. split; [exact Hcanon|].
  exact (InvokeWithTopic_topic_overrides_options (H:=plain_runtime)
           (test_invoker (responder 200 hi) false [WithInvokerSendTopic true])
           0%nat (Sync (NewTopicMap None) {["orders" := ["proc.fn1"]]}) "orders"
           hi None [WithInvokeTopic "other"] idle
           Hm ltac:(by apply Forall_true) Hcanon eq_refl).
Defined.

(** ** The controller *)

Section controller_facts.
Context `{GoRuntime} `{GoStrings} `{Gateway}.

Lemma range_entries_empty : range_entries ∅ = [].
Proof.
  apply Permutation_nil_r. rewrite range_entries_perm. by rewrite map_to_list_empty.
Qed.

Lemma Match_empty_table (mf : option MatchTopicFunc) (T : string) :
  Match (NewTopicMap mf) T = [].
Proof. rewrite Match_unfold. cbn [lookup_table NewTopicMap]. by rewrite range_entries_empty. Qed.


Lemma NewController_TopicMap (config : ControllerConfig.t) :
  controller.TopicMap (NewController config) =
  NewTopicMap (ControllerConfig.TopicMatcher config).
Proof. unfold NewController. by destruct (ControllerConfig.PrintResponse config). Qed.

End controller_facts.





(** X18. Before its first synchronization a controller knows no topic:
    [Topics] is empty and an event with a payload is dropped without a
    response or a request, whatever its topic; an event with an empty
    payload gets the one "no message to send" response. *)
Theorem fresh_controller_drops_events
    `{RT : GoRuntime} `{GW : Gateway}
    (config : ControllerConfig.t) (ctx : Context) (topic : string)
    (b : Byte.byte) (m : bytes) (headers : option http_Header)
    (opts : list InvokeOptionFunc) (w : World) :
  controller_Topics (NewController config) = [] /\
  controller_InvokeWithContext (NewController config) ctx topic (Some (b :: m))
    headers opts w = Ok (tt, w) /\
  controller_InvokeWithContext (NewController config) ctx topic (Some [])
    headers opts w =
    Ok (tt, {| Responses := Responses w ++ [no_message_response ctx];
               round_trips := round_trips w;
               now := now w |}).
Proof.
  unfold controller_Topics, controller_InvokeWithContext.
  rewrite NewController_TopicMap. split_and!.
  - rewrite Topics_unfold. cbn [lookup_table NewTopicMap].
    by rewrite range_entries_empty.
  - unfold InvokeWithTopic, bind at 1. cbn [deref ret length].
    cbn [bool_decide is_nil orb]. rewrite bool_decide_false by done.
    cbn [orb]. unfold bind at 1. cbn [deref ret].
    by rewrite Match_empty_table.
  - by apply InvokeWithTopic_guard; left.
Qed.

(** X19. Subscribers are kept in the order they subscribed, after the
    printer the controller installs itself when [PrintResponse] is set;
    subscribing changes neither the invoker nor the topic map, and a
    synchronization keeps the subscribers. *)
Theorem Subscribe_keeps_registration_order
    `{RT : GoRuntime} `{STR : GoStrings} `{GW : Gateway}
    (config : ControllerConfig.t) (subscribers : list ResponseSubscriber)
    (lookupBuilder : FunctionLookupBuilder.t) :
  controller.Subscribers (fold_left Subscribe subscribers (NewController config)) =
    (if ControllerConfig.PrintResponse config
     then [ResponsePrinter (ControllerConfig.PrintResponseBody config)]
     else []) ++ subscribers /\
  controller.Invoker (fold_left Subscribe subscribers (NewController config)) =
    controller.Invoker (NewController config) /\
  controller.TopicMap (fold_left Subscribe subscribers (NewController config)) =
    controller.TopicMap (NewController config) /\
  controller.Subscribers <$>
    synchronize (fold_left Subscribe subscribers (NewController config))
      lookupBuilder =
  (fun _ => (if ControllerConfig.PrintResponse config
             then [ResponsePrinter (ControllerConfig.PrintResponseBody config)]
             else []) ++ subscribers) <$>
    synchronize (NewController config) lookupBuilder.
Proof.
  assert (Hfold : forall c,
            controller.Subscribers (fold_left Subscribe subscribers c) =
              controller.Subscribers c ++ subscribers /\
            controller.Invoker (fold_left Subscribe subscribers c) =
              controller.Invoker c /\
            controller.TopicMap (fold_left Subscribe subscribers c) =
              controller.TopicMap c).
  { induction subscribers as [|s ss IH]; intros c; cbn [fold_left].
    - by rewrite app_nil_r.
    - destruct (IH (Subscribe c s)) as (-> & -> & ->). cbn.
      by rewrite <- (assoc_L (++)). }
  destruct (Hfold (NewController config)) as (Hsubs & Hinv & Htm).
  assert (Hnew : controller.Subscribers (NewController config) =
                 if ControllerConfig.PrintResponse config
                 then [ResponsePrinter (ControllerConfig.PrintResponseBody config)]
                 else []).
  { unfold NewController. by destruct (ControllerConfig.PrintResponse config). }
  rewrite Hnew in Hsubs. split_and!; [done|done|done|].
  unfold synchronize. destruct (Build lookupBuilder) as [lookups [e|]]; [done|].
  cbn. by rewrite Hsubs.
Qed.

(** ** Options *)

(** X20. Options are applied in the order they are given and each one
    writes its own field only: after any list of options, an option for
    the topic, the callback URL or the content type of a call sets that
    field and leaves the other two as the list made them, and so do the
    three options of an invoker in [NewInvoker]. A later option for a
    field therefore overrides an earlier one, and options for different
    fields do not disturb each other. *)
Theorem options_set_their_own_field
    (opts : list InvokeOptionFunc) (invokerOpts : list InvokerOptionFunc)
    (value : string) (sendTopic : bool)
    (gatewayURL : string) (client : http_Client) (contentType : string)
    (printResponse printRequest : bool) :
  apply_opts InvokeOptions.zero (opts ++ [WithInvokeTopic value]) =
    {| InvokeOptions.topic := value;
       InvokeOptions.asyncCallbackURL :=
         InvokeOptions.asyncCallbackURL (apply_opts InvokeOptions.zero opts);
       InvokeOptions.contentType :=
         InvokeOptions.contentType (apply_opts InvokeOptions.zero opts) |} /\
  apply_opts InvokeOptions.zero (opts ++ [WithInvokeAsyncCallbackURL value]) =
    {| InvokeOptions.topic :=
         InvokeOptions.topic (apply_opts InvokeOptions.zero opts);
       InvokeOptions.asyncCallbackURL := value;
       InvokeOptions.contentType :=
         InvokeOptions.contentType (apply_opts InvokeOptions.zero opts) |} /\
  apply_opts InvokeOptions.zero (opts ++ [WithInvokeContentType value]) =
    {| InvokeOptions.topic :=
         InvokeOptions.topic (apply_opts InvokeOptions.zero opts);
       InvokeOptions.asyncCallbackURL :=
         InvokeOptions.asyncCallbackURL (apply_opts InvokeOptions.zero opts);
       InvokeOptions.contentType := value |} /\
  Invoker.opts (NewInvoker gatewayURL client contentType printResponse printRequest
                  (invokerOpts ++ [WithInvokerSendTopic sendTopic])) =
    {| InvokerOptions.sendTopic := sendTopic;
       InvokerOptions.asyncCallbackURL :=
         InvokerOptions.asyncCallbackURL
           (Invoker.opts (NewInvoker gatewayURL client contentType printResponse
                            printRequest invokerOpts));
       InvokerOptions.userAgent :=
         InvokerOptions.userAgent
           (Invoker.opts (NewInvoker gatewayURL client contentType printResponse
                            printRequest invokerOpts)) |} /\
  Invoker.opts (NewInvoker gatewayURL client contentType printResponse printRequest
                  (invokerOpts ++ [WithInvokerAsyncCallbackURL value])) =
    {| InvokerOptions.sendTopic :=
         InvokerOptions.sendTopic
           (Invoker.opts (NewInvoker gatewayURL client contentType printResponse
                            printRequest invokerOpts));
       InvokerOptions.asyncCallbackURL := value;
       InvokerOptions.userAgent :=
         InvokerOptions.userAgent
           (Invoker.opts (NewInvoker gatewayURL client contentType printResponse
                            printRequest invokerOpts)) |} /\
  Invoker.opts (NewInvoker gatewayURL client contentType printResponse printRequest
                  (invokerOpts ++ [WithInvokerUserAgent value])) =
    {| InvokerOptions.sendTopic :=
         InvokerOptions.sendTopic
           (Invoker.opts (NewInvoker gatewayURL client contentType printResponse
                            printRequest invokerOpts));
       InvokerOptions.asyncCallbackURL :=
         InvokerOptions.asyncCallbackURL
           (Invoker.opts (NewInvoker gatewayURL client contentType printResponse
                            printRequest invokerOpts));
       InvokerOptions.userAgent := value |}.
Proof.
  unfold NewInvoker. cbn [Invoker.opts].
  unfold apply_opts. rewrite !fold_left_app. done.
Qed.

(** ** Credentials *)

(** X21. [GetCredentials] never returns credentials. When the
    environment does not ask for basic auth ([basic_auth] unset, empty, or
    neither ["true"] nor ["1"]) it returns nil; when it does, the call
    panics, on the error of the reader or, the secrets read, on the
    assignment through the nil [credentials]. *)
Theorem GetCredentials_never_returns_credentials `{Host} :
  GetCredentials =
    (if bool_decide (environ !! "basic_auth" = Some "true" \/
                     environ !! "basic_auth" = Some "1")
     then Panic else Ok None) /\
  forall credentials, GetCredentials ≠ Ok (Some credentials).
Proof.
  assert (Heq : GetCredentials =
            (if bool_decide (environ !! "basic_auth" = Some "true" \/
                             environ !! "basic_auth" = Some "1")
             then Panic else Ok None)).
  { unfold GetCredentials, os_LookupEnv.
    destruct (environ !! "basic_auth") as [val|] eqn:Hval.
    - cbn [andb]. destruct (0 <? String.length val)%nat eqn:Hlen.
      + destruct (bool_decide (val = "true")) eqn:Htrue.
        * apply bool_decide_eq_true in Htrue as ->.
          rewrite (bool_decide_true (_ \/ _)) by (by left). cbn [orb].
          destruct (environ !! "secret_mount_path") as [val'|]; cbn [andb];
            by destruct (ReadBasicAuthFromDisk _).
        * destruct (bool_decide (val = "1")) eqn:Hone.
          -- apply bool_decide_eq_true in Hone as ->.
             rewrite (bool_decide_true (_ \/ _)) by (by right). cbn [orb].
             destruct (environ !! "secret_mount_path") as [val'|]; cbn [andb];
               by destruct (ReadBasicAuthFromDisk _).
          -- apply bool_decide_eq_false in Htrue, Hone.
             rewrite (bool_decide_false (_ \/ _)); [done|]. intros [[= ->]|[= ->]]; done.
      + destruct val; [|done]. by rewrite (bool_decide_false (_ \/ _)) by naive_solver.
    - by rewrite (bool_decide_false (_ \/ _)) by naive_solver. }
  split; [exact Heq|]. intros credentials. rewrite Heq. by case_bool_decide.
Qed.

(** ** The earlier invoker *)

Lemma Legacy_getHeaders_cases (i : Legacy.Invoker.t) (topic : string) :
  Legacy.getHeaders i topic =
    if (Legacy.Invoker.SendTopic i && bool_decide (topic ≠ "")) ||
       bool_decide (Legacy.Invoker.CallbackURL i ≠ "") ||
       bool_decide (Legacy.Invoker.ContentType i ≠ "")
    then Panic else Ok None.
Proof.
  unfold Legacy.getHeaders.
  destruct (Legacy.Invoker.SendTopic i && bool_decide (topic ≠ "")); [done|].
  destruct (bool_decide (Legacy.Invoker.CallbackURL i ≠ "")); [done|].
  by destruct (bool_decide (Legacy.Invoker.ContentType i ≠ "")).
Qed.

Section legacy_facts.
Context `{GoRuntime}.

Lemma Legacy_invoke_matched_panics (i : Legacy.Invoker.t) (ctx : Context)
    (topic : string) (m : bytes) (f : string) (fs : list string)
    (w : Legacy.World) :
  Legacy.getHeaders i topic = Panic ->
  Legacy.invoke_matched i ctx topic m (f :: fs) w = Panic.
Proof. intros Hp. cbn [Legacy.invoke_matched]. by rewrite Hp. Qed.

Lemma Legacy_invoke_matched_counts (i : Legacy.Invoker.t) (ctx : Context)
    (topic : string) (m : bytes) (fs : list string) (w : Legacy.World) :
  Legacy.getHeaders i topic = Ok None ->
  Forall (fun f => new_request_error (Legacy.Invoker.GatewayURL i +:+ "/" +:+ f)
                   = None) fs ->
  exists w' rs reqs,
    Legacy.invoke_matched i ctx topic m fs w = Ok w' /\
    Legacy.Responses w' = Legacy.Responses w ++ rs /\
    Legacy.round_trips w' = Legacy.round_trips w ++ reqs /\
    length rs = length fs /\
    Request.URL <$> reqs = (fun f => Legacy.Invoker.GatewayURL i +:+ "/" +:+ f) <$> fs /\
    Forall (fun req => Request.Body req = m) reqs.
Proof.
  intros Hh. revert w. induction fs as [|f fs IH]; intros w Hall.
  - exists w, [], []. cbn. by rewrite !app_nil_r.
  - apply Forall_cons in Hall as [Hf Hall].
    cbn [Legacy.invoke_matched]. rewrite Hh. unfold Legacy.invokeFunction.
    rewrite Hf.
    destruct (Legacy.Invoker.Client i _ _) as [[doErr|res] took].
    + match goal with
      | |- context [Legacy.invoke_matched _ _ _ _ fs ?w1] =>
          destruct (IH w1 Hall) as (w' & rs & reqs & Hrun & Hresp & Hreqs & Hlen & Hurls & Hbodies)
      end.
      eexists w', (_ :: rs), (_ :: reqs). split; [exact Hrun|].
      split_and!.
      * rewrite Hresp. cbn. by rewrite <- (assoc_L (++)).
      * rewrite Hreqs. cbn. by rewrite <- (assoc_L (++)).
      * cbn. by rewrite Hlen.
      * cbn. by rewrite Hurls.
      * by constructor.
    + destruct (Response.Body res) as [[bytesOut|readErr]|];
        match goal with
        | |- context [Legacy.invoke_matched _ _ _ _ fs ?w1] =>
            destruct (IH w1 Hall) as (w' & rs & reqs & Hrun & Hresp & Hreqs & Hlen & Hurls & Hbodies)
        end;
        (eexists w', (_ :: rs), (_ :: reqs); split; [exact Hrun|];
         split_and!;
         [ rewrite Hresp; cbn; by rewrite <- (assoc_L (++))
         | rewrite Hreqs; cbn; by rewrite <- (assoc_L (++))
         | cbn; by rewrite Hlen
         | cbn; by rewrite Hurls
         | by constructor ]).
Qed.
End legacy_facts.

(** X22. The earlier [InvokeWithContext] does not stop at an empty
    message: after the "no message to send" response it goes on to POST
    the empty body to every matched function and to send a response for
    each (an invoker with nothing to put in a header, URLs that parse). *)
Theorem Legacy_empty_message_is_still_sent `{GoRuntime}
    (i : Legacy.Invoker.t) (ctx : Context) (t : TopicMap) (topic : string)
    (w : Legacy.World) :
  Legacy.getHeaders i topic = Ok None ->
  Forall (fun f => new_request_error (Legacy.Invoker.GatewayURL i +:+ "/" +:+ f)
                   = None) (Match t topic) ->
  exists w' r0 rs reqs,
    Legacy.InvokeWithContext i ctx t topic (Some []) w = Ok w' /\
    Legacy.Responses w' = Legacy.Responses w ++ r0 :: rs /\
    Legacy.InvokerResponse.Error r0 = Some (errorString "no message to send") /\
    length rs = length (Match t topic) /\
    Legacy.round_trips w' = Legacy.round_trips w ++ reqs /\
    Request.URL <$> reqs =
      (fun f => Legacy.Invoker.GatewayURL i +:+ "/" +:+ f) <$> Match t topic /\
    Forall (fun req => Request.Body req = []) reqs.
Proof.
  intros Hh Hall. unfold Legacy.InvokeWithContext. cbn [length].
  rewrite bool_decide_true by done.
  match goal with
  | |- context [Legacy.invoke_matched _ _ _ _ _ ?w1] =>
      destruct (Legacy_invoke_matched_counts i ctx topic [] (Match t topic) w1
                  Hh Hall) as (w' & rs & reqs & Hrun & Hresp & Hreqs & Hlen & Hurls & Hb)
  end.
  eexists w', _, rs, reqs. split; [exact Hrun|]. split.
  { rewrite Hresp. cbn. rewrite <- (assoc_L (++)). reflexivity. }
  split_and!; done.
Qed.

(** Witness of X22: one handler under [test-topic], as in the package's
    "no message" test. *)
Lemma Legacy_empty_message_is_still_sent_witness :
  Legacy.getHeaders (Legacy.NewInvoker "http://localhost" (responder 200 hi)
                       "" "" false false) "test-topic" = Ok None /\
  exists w' r0 rs reqs,
    Legacy.InvokeWithContext (H:=plain_runtime)
      (Legacy.NewInvoker "http://localhost" (responder 200 hi) "" "" false false)
      0%nat (Sync (NewTopicMap None) {["test-topic" := ["test-function"]]})
      "test-topic" (Some []) (Legacy.mkWorld [] []) = Ok w' /\
    Legacy.Responses w' = r0 :: rs /\
    Legacy.InvokerResponse.Error r0 = Some (errorString "no message to send") /\
    length rs =
      length (Match (H:=plain_runtime)
                (Sync (NewTopicMap None) {["test-topic" := ["test-function"]]})
                "test-topic") /\
    Legacy.round_trips w' = reqs /\
    Request.URL <$> reqs =
      (fun f => "http://localhost" +:+ "/" +:+ f) <$>
        Match (H:=plain_runtime)
          (Sync (NewTopicMap None) {["test-topic" := ["test-function"]]})
          "test-topic" /\
    Forall (fun req => Request.Body req = []) reqs.
Proof.
  split; [reflexivity|].
  exact (Legacy_empty_message_is_still_sent (H:=plain_runtime)
           (Legacy.NewInvoker "http://localhost" (responder 200 hi) "" "" false false)
           0%nat (Sync (NewTopicMap None) {["test-topic" := ["test-function"]]})
           "test-topic" (Legacy.mkWorld [] []) eq_refl
           ltac:(by apply Forall_true)).
Defined.

(** X23. With a content type, a callback URL or a topic to send, the
    earlier [InvokeWithContext] panics at the first matched function,
    before any request; a topic nothing matches does not get that far. *)
Theorem Legacy_configured_header_panics `{GoRuntime}
    (i : Legacy.Invoker.t) (ctx : Context) (t : TopicMap) (topic : string)
    (m : bytes) (w : Legacy.World) :
  (Legacy.Invoker.SendTopic i && bool_decide (topic ≠ "")) ||
  bool_decide (Legacy.Invoker.CallbackURL i ≠ "") ||
  bool_decide (Legacy.Invoker.ContentType i ≠ "") = true ->
  Legacy.InvokeWithContext i ctx t topic (Some m) w =
    match Match t topic with
    | [] => Ok (if bool_decide (length m = 0%nat)
             then Legacy.send
                    {| Legacy.InvokerResponse.Context := ctx;
                       Legacy.InvokerResponse.Body := None;
                       Legacy.InvokerResponse.Header := None;
                       Legacy.InvokerResponse.Status := 0;
                       Legacy.InvokerResponse.Error :=
                         Some (errorString "no message to send");
                       Legacy.InvokerResponse.Topic := "";
                       Legacy.InvokerResponse.Function := "" |} w
             else w)
    | _ :: _ => Panic
    end.
Proof.
  intros Hset. unfold Legacy.InvokeWithContext.
  destruct (Match t topic) as [|f fs]; [done|].
  apply Legacy_invoke_matched_panics.
  rewrite Legacy_getHeaders_cases. by rewrite Hset.
Qed.

(** Witness of X23: the content type every connector configures. *)
Lemma Legacy_configured_header_panics_witness :
  (Legacy.Invoker.SendTopic
     (Legacy.NewInvoker "http://localhost" (responder 200 hi)
        "application/json" "" false false) && bool_decide ("payment" ≠ "")) ||
  bool_decide (Legacy.Invoker.CallbackURL
                 (Legacy.NewInvoker "http://localhost" (responder 200 hi)
                    "application/json" "" false false) ≠ "") ||
  bool_decide (Legacy.Invoker.ContentType
                 (Legacy.NewInvoker "http://localhost" (responder 200 hi)
                    "application/json" "" false false) ≠ "") = true /\
  Legacy.InvokeWithContext (H:=plain_runtime)
    (Legacy.NewInvoker "http://localhost" (responder 200 hi)
       "application/json" "" false false)
    0%nat (Sync (NewTopicMap None) {["payment" := ["a.fn"]]}) "payment"
    (Some hi) (Legacy.mkWorld [] []) = Panic.
Proof.
  split; [reflexivity|].
  exact (Legacy_configured_header_panics (H:=plain_runtime)
           (Legacy.NewInvoker "http://localhost" (responder 200 hi)
              "application/json" "" false false)
           0%nat (Sync (NewTopicMap None) {["payment" := ["a.fn"]]}) "payment"
           hi (Legacy.mkWorld [] []) eq_refl).
Defined.

(** X24. In the earlier invoker an answer whose body cannot be read is
    not an error: [invokeFunction] returns status 503 with a nil error,
    and [InvokeWithContext] sends for it a response with status 503, no
    body, no error, and the function and topic of a success. *)
Theorem Legacy_unreadable_body_is_not_an_error `{GoRuntime}
    (i : Legacy.Invoker.t) (ctx : Context) (topic f : string) (m : bytes)
    (w : Legacy.World) (res : Response.t) (readErr : error) :
  Legacy.getHeaders i topic = Ok None ->
  new_request_error (Legacy.Invoker.GatewayURL i +:+ "/" +:+ f) = None ->
  (forall req, (Legacy.Invoker.Client i (Legacy.round_trips w) req).1 = DoOk res) ->
  Response.Body res = Some (ReadErr readErr) ->
  exists req w1,
    Legacy.invokeFunction ctx (Legacy.Invoker.Client i)
      (Legacy.Invoker.GatewayURL i +:+ "/" +:+ f) m None w
      = ((None, StatusServiceUnavailable, None, None), w1) /\
    Legacy.invoke_matched i ctx topic m [f] w =
      Ok {| Legacy.Responses :=
              Legacy.Responses w ++
              [ {| Legacy.InvokerResponse.Context := ctx;
                   Legacy.InvokerResponse.Body := None;
                   Legacy.InvokerResponse.Header := None;
                   Legacy.InvokerResponse.Status := StatusServiceUnavailable;
                   Legacy.InvokerResponse.Error := None;
                   Legacy.InvokerResponse.Topic := topic;
                   Legacy.InvokerResponse.Function := f |} ];
            Legacy.round_trips := Legacy.round_trips w ++ [req] |}.
Proof.
  intros Hh Hurl Hdo Hbody.
  cbn [Legacy.invoke_matched]. rewrite Hh. unfold Legacy.invokeFunction.
  rewrite Hurl.
  match goal with
  | |- context [Legacy.Invoker.Client i (Legacy.round_trips w) ?q] =>
      specialize (Hdo q);
      destruct (Legacy.Invoker.Client i (Legacy.round_trips w) q) as [out took]
  end.
  cbn [fst] in Hdo. subst out. rewrite Hbody.
  eexists _, _. split; reflexivity.
Qed.

(** Witness of X24: a server whose answer breaks off. *)
Lemma Legacy_unreadable_body_is_not_an_error_witness :
  Legacy.getHeaders (Legacy.NewInvoker "http://localhost" truncating "" "" false false)
    "payment" = Ok None /\
  exists req w1,
    Legacy.invokeFunction (H:=plain_runtime) 0%nat
      (Legacy.Invoker.Client
         (Legacy.NewInvoker "http://localhost" truncating "" "" false false))
      (Legacy.Invoker.GatewayURL
         (Legacy.NewInvoker "http://localhost" truncating "" "" false false)
       +:+ "/" +:+ "a.fn") hi None (Legacy.mkWorld [] [])
      = ((None, StatusServiceUnavailable, None, None), w1) /\
    Legacy.invoke_matched (H:=plain_runtime)
      (Legacy.NewInvoker "http://localhost" truncating "" "" false false)
      0%nat "payment" hi ["a.fn"] (Legacy.mkWorld [] []) =
      Ok {| Legacy.Responses :=
              [ {| Legacy.InvokerResponse.Context := 0%nat;
                   Legacy.InvokerResponse.Body := None;
                   Legacy.InvokerResponse.Header := None;
                   Legacy.InvokerResponse.Status := StatusServiceUnavailable;
                   Legacy.InvokerResponse.Error := None;
                   Legacy.InvokerResponse.Topic := "payment";
                   Legacy.InvokerResponse.Function := "a.fn" |} ];
            Legacy.round_trips := [req] |}.
Proof.
  split; [reflexivity|].
  exact (Legacy_unreadable_body_is_not_an_error (H:=plain_runtime)
           (Legacy.NewInvoker "http://localhost" truncating "" "" false false)
           0%nat "payment" "a.fn" hi (Legacy.mkWorld [] [])
           {| Response.StatusCode := 200; Response.Header := ∅;
              Response.Body := Some (ReadErr unexpected_EOF) |}
           unexpected_EOF eq_refl eq_refl (fun _ => eq_refl) eq_refl).
Defined.

(** ** More on matching and on the guard *)

(** X25. A match function that accepts equal topics never loses the
    handlers registered under the topic itself: every handler the default
    matcher returns is also returned under such a function. *)
Theorem reflexive_matcher_keeps_exact_handlers `{GoRuntime}
    (mf : MatchTopicFunc) (table : gmap string (list string)) (T f : string) :
  mf T T = true ->
  f ∈ Match (Sync (NewTopicMap None) table) T ->
  f ∈ Match (Sync (NewTopicMap (Some mf)) table) T.
Proof.
  intros Hrefl Hf.
  apply Match_elem_of in Hf as (k & fs & Hk & Hm & Hin).
  apply Match_elem_of. exists k, fs. split; [done|]. split; [|done].
  apply bool_decide_eq_true in Hm. by subst k.
Qed.

(** Witness of X25: matching by prefix. *)
Lemma reflexive_matcher_keeps_exact_handlers_witness :
  String.prefix "payment" "payment" = true /\
  "a.fn" ∈ Match (H:=plain_runtime)
             (Sync (NewTopicMap None)
                (<["payment" := ["a.fn"]]> {["payment.eu" := ["b.fn"]]}))
             "payment" /\
  "a.fn" ∈ Match (H:=plain_runtime)
             (Sync (NewTopicMap (Some String.prefix))
                (<["payment" := ["a.fn"]]> {["payment.eu" := ["b.fn"]]}))
             "payment".
Proof.
  assert (Hin : "a.fn" ∈ Match (H:=plain_runtime)
                  (Sync (NewTopicMap None)
                     (<["payment" := ["a.fn"]]> {["payment.eu" := ["b.fn"]]}))
                  "payment").
  { vm_compute. by left. }
  split; [reflexivity|]. split; [exact Hin|].
  exact (reflexive_matcher_keeps_exact_handlers (H:=plain_runtime) String.prefix
           (<["payment" := ["a.fn"]]> {["payment.eu" := ["b.fn"]]})
           "payment" "a.fn" eq_refl Hin).
Defined.

(** X26. The guard of [InvokeWithTopic] comes before everything else: an
    empty payload, whatever the topic map and whatever it would match,
    and a nil topic map, whatever the payload, get exactly the one "no
    message to send" response, with status 0 and neither function nor
    topic; no request is issued and the clock does not move. *)
Theorem InvokeWithTopic_guard_short_circuits `{GoRuntime}
    (i : Invoker.t) (ctx : Context) (topicMap : option TopicMap) (topic : string)
    (m : bytes) (headers : option http_Header) (opts : list InvokeOptionFunc)
    (w : World) :
  InvokeWithTopic i ctx topicMap topic (Some []) headers opts w =
    Ok (tt, {| Responses :=
                 Responses w ++
                 [ {| InvokerResponse.Context := ctx;
                      InvokerResponse.Body := None;
                      InvokerResponse.Header := None;
                      InvokerResponse.Status := 0;
                      InvokerResponse.Error := Some (errorString "no message to send");
                      InvokerResponse.Topic := "";
                      InvokerResponse.Function := "";
                      InvokerResponse.Duration := 0 |} ];
               round_trips := round_trips w;
               now := now w |}) /\
  InvokeWithTopic i ctx None topic (Some m) headers opts w =
    Ok (tt, {| Responses :=
                 Responses w ++
                 [ {| InvokerResponse.Context := ctx;
                      InvokerResponse.Body := None;
                      InvokerResponse.Header := None;
                      InvokerResponse.Status := 0;
                      InvokerResponse.Error := Some (errorString "no message to send");
                      InvokerResponse.Topic := "";
                      InvokerResponse.Function := "";
                      InvokerResponse.Duration := 0 |} ];
               round_trips := round_trips w;
               now := now w |}).
Proof.
  rewrite InvokeWithTopic_guard by (by left).
  rewrite InvokeWithTopic_guard by (by right). done.
Qed.

(** X27. The text of the error of a failed invocation names the
    function, then the endpoint, then the cause: ["unable to invoke F,
    error: unable to reach endpoint U, error: C"] when the client fails,
    and ["unable to invoke F, error: unable to read body from response C"]
    when the body cannot be read. *)
Theorem Invoke_error_message `{GoRuntime}
    (i : Invoker.t) (ctx : Context) (functionName : string)
    (message : option bytes) (headers : option http_Header)
    (opts : list InvokeOptionFunc) (w : World) :
  nil_safe i message ->
  new_request_error (gateway_url i functionName) = None ->
  exists r w' req,
    Invoke i ctx functionName message headers opts w = Ok (r, w') /\
    round_trips w' = round_trips w ++ [req] /\
    match (Invoker.Client i (round_trips w) req).1 with
    | DoErr cause =>
        Error_msg <$> InvokerResponse.Error r =
        Some (("unable to invoke " +:+ functionName +:+ ", error: ") +:+
              ("unable to reach endpoint " +:+
               (Invoker.GatewayURL i +:+ "/" +:+ functionName) +:+ ", error: ") +:+
              Error_msg cause)
    | DoOk res =>
        match Response.Body res with
        | Some (ReadErr cause) =>
            Error_msg <$> InvokerResponse.Error r =
            Some (("unable to invoke " +:+ functionName +:+ ", error: ") +:+
                  "unable to read body from response " +:+ Error_msg cause)
        | _ => InvokerResponse.Error r = None
        end
    end.
Proof.
  intros Hsafe Hurl.
  assert (Hlog : (if Invoker.PrintRequest i
                  then (let* _ := deref message in ret tt)
                  else ret tt) w = Ok (tt, w)).
  { destruct (Invoker.PrintRequest i) eqn:Hprint; [|done].
    destruct message; [done|]. by destruct (Hsafe Hprint). }
  unfold Invoke, bind at 1. rewrite Hlog.
  unfold bind at 1. unfold time_Now.
  unfold bind at 1. unfold invoke.
  fold (gateway_url i functionName). rewrite Hurl.
  change (bool_decide (Header_Get ∅ "X-Connector" = "")) with true.
  cbn iota.
  unfold bind at 1. unfold Client_Do.
  destruct (Invoker.Client i (round_trips w) _) as [out took] eqn:Hdo.
  destruct out as [cause|res].
  - eexists _, _, _. split; [reflexivity|]. split; [reflexivity|].
    rewrite Hdo. reflexivity.
  - destruct (Response.Body res) as [[bytesOut|cause]|] eqn:Hb.
    + eexists _, _, _. split; [reflexivity|]. split; [reflexivity|].
      rewrite Hdo. cbn [fst]. rewrite Hb. reflexivity.
    + eexists _, _, _. split; [reflexivity|]. split; [reflexivity|].
      rewrite Hdo. cbn [fst]. rewrite Hb. reflexivity.
    + eexists _, _, _. split; [reflexivity|]. split; [reflexivity|].
      rewrite Hdo. cbn [fst]. rewrite Hb. reflexivity.
Qed.

(** Witness of X27: the message the package's network-error test looks
    for. *)
Lemma Invoke_error_message_witness :
  nil_safe (NewInvoker "http://invalid-url" unreachable "application/json"
              false false []) (Some hi) /\
  exists r w' req,
    Invoke (H:=plain_runtime)
      (NewInvoker "http://invalid-url" unreachable "application/json" false false [])
      0%nat "test-function" (Some hi) (Some ∅) [] idle = Ok (r, w') /\
    round_trips w' = [req] /\
    Error_msg <$> InvokerResponse.Error r =
      Some "unable to invoke test-function, error: unable to reach endpoint http://invalid-url/test-function, error: dial tcp: no such host".
Proof.
  assert (Hsafe : nil_safe (NewInvoker "http://invalid-url" unreachable
                              "application/json" false false []) (Some hi))
    by (intros _; discriminate).
  split; [exact Hsafe|].
  exact (Invoke_error_message (H:=plain_runtime)
           (NewInvoker "http://invalid-url" unreachable "application/json"
              false false [])
           0%nat "test-function" (Some hi) (Some ∅) [] idle Hsafe eq_refl).
Defined.
